(** * Session backend of the collaborative whiteboard

    A shallow embedding of [src/session-backend/index.ts]: the shape store,
    the two tool handlers the assistant can call, the dispatch of one batch of
    tool calls, the polling driver [handleUserPrompt] and the socket
    listeners, followed by the properties of the specification that concern
    them.

    The driver is asynchronous.  Every [await] of the source is a program
    point at which the handler is suspended; what runs between two awaits is
    one synchronous segment, a function from the session store to the new
    store, the effects performed and the point where the handler suspends
    next.  The event loop delivers socket events and completions of awaited
    calls, one at a time. *)

From Stdlib Require Import QArith ZArith String Ascii Lia SpecFloat.
From stdpp Require Import base list strings option.

Close Scope Q_scope.
Set Warnings "-register-all".

Open Scope string_scope.
Open Scope list_scope.

(** ** JavaScript values *)

(** A number is an IEEE double.  The values the program stores, tests for
    finiteness and compares are carried as rationals, every finite double
    being one.  The one computation on numbers, the id
    [Math.floor(Math.random() * 100000)], is done on doubles as below. *)
Inductive number :=
| NaN
| Infinity (negative : bool)
| Finite (q : Q).

(** ** Double arithmetic

    The doubles of the computation of an id are the binary64 values of the
    Standard Library's specification of IEEE 754: a finite double is
    [(-1)^s * m * 2^e], and [SFmul] is the product rounded to the nearest
    double, ties to even, which is what [*] is on numbers. *)
Definition double := spec_float.

Definition prec : Z := 53.
Definition emax : Z := 1024.

(** [x * y] *)
Definition multiply (x y : double) : double := SFmul prec emax x y.

(** The double that an integer literal denotes. *)
Definition literal (n : Z) : double := binary_normalize prec emax n 0 false.

(** [Math.floor(x)], an integer when [x] is finite. *)
Definition Math_floor (x : double) : number :=
  match x with
  | S754_nan => NaN
  | S754_infinity s => Infinity s
  | S754_zero _ => Finite 0
  | S754_finite s m e =>
    let n := if s then Zneg m else Zpos m in
    Finite (inject_Z (if (0 <=? e)%Z then n * 2 ^ e else n / 2 ^ (- e))%Z)
  end.

Definition positive_sign (x : double) : bool :=
  match x with
  | S754_zero s | S754_infinity s | S754_finite s _ _ => negb s
  | S754_nan => false
  end.

(** What the language promises of the result of [Math.random()]: a double
    of positive sign, greater than or equal to [+0] and less than 1. *)
Definition from_unit_interval (x : double) : bool :=
  valid_binary prec emax x && positive_sign x && SFltb x (literal 1).

Inductive jsval :=
| VUndefined
| VNull
| VBool (b : bool)
| VNum (n : number)
| VStr (s : string)
| VArr (items : list jsval)
| VObj (props : list (string * jsval)).

(** [Number.isFinite]: false on everything that is not a number. *)
Definition Number_isFinite (v : jsval) : bool :=
  match v with
  | VNum (Finite _) => true
  | _ => false
  end.

(** [a === b].  Arrays and objects are compared by reference; both sides of
    every comparison of the program come from different deserialised
    payloads, so two of them are never the same reference. *)
Definition strict_eq (a b : jsval) : bool :=
  match a, b with
  | VUndefined, VUndefined => true
  | VNull, VNull => true
  | VBool x, VBool y => Bool.eqb x y
  | VNum (Finite p), VNum (Finite q) => Qeq_bool p q
  | VNum (Infinity s), VNum (Infinity t) => Bool.eqb s t
  | VStr s, VStr t => String.eqb s t
  | _, _ => false
  end.

(** The property names the program reads. *)
Inductive field := Fx | Fy | Fw | Fh | Fcolor | Fid.

Definition field_name (f : field) : string :=
  match f with
  | Fx => "x" | Fy => "y" | Fw => "w" | Fh => "h"
  | Fcolor => "color" | Fid => "id"
  end.

Fixpoint own_property (k : string) (props : list (string * jsval)) : jsval :=
  match props with
  | [] => VUndefined
  | (k', v) :: rest => if String.eqb k k' then v else own_property k rest
  end.

Definition nullish (v : jsval) : bool :=
  match v with
  | VUndefined | VNull => true
  | _ => false
  end.

(** [v?.f], which is also [v.f] when [v] is neither null nor undefined.
    None of the six names is a property of a primitive wrapper, of an array
    or of [Object.prototype]. *)
Definition read (v : jsval) (f : field) : jsval :=
  match v with
  | VObj props => own_property (field_name f) props
  | _ => VUndefined
  end.

(** [a ?? b] *)
Definition coalesce (a b : jsval) : jsval := if nullish a then b else a.

(** ** Exceptions *)

Inductive exn :=
| Error (message : string)
| TypeError (message : string)
| SyntaxError (message : string)
| Thrown (v : jsval).   (* a thrown value that is not an Error *)

Definition instanceof_Error (e : exn) : bool :=
  match e with
  | Thrown _ => false
  | _ => true
  end.

Definition named (name message : string) : string :=
  match message with
  | EmptyString => name
  | _ => name +:+ ": " +:+ message
  end.

(** [err.toString()] of an Error. *)
Definition Error_toString (e : exn) : string :=
  match e with
  | Error m => named "Error" m
  | TypeError m => named "TypeError" m
  | SyntaxError m => named "SyntaxError" m
  | Thrown _ => EmptyString
  end.

(** ** Data model *)

(** Modelled from the spec: the declaration of [Shape] in [../types] is not
    part of the sources.  A shape has the six fields the backend reads and
    writes; at run time each holds whatever value was stored in it, and a
    field that was never supplied holds [undefined]. *)
Record Shape := mkShape {
  shape_x : jsval;
  shape_y : jsval;
  shape_w : jsval;
  shape_h : jsval;
  shape_color : jsval;
  shape_id : jsval
}.

(** One tool call of a required action: [call.id], [call.function.name] and
    [call.function.arguments]. *)
Record ToolCall := mkToolCall {
  call_id : option string;
  function_name : string;
  function_arguments : string
}.

Record ToolOutput := mkToolOutput {
  tool_call_id : string;
  output : string
}.

(** A run object of the external service, as returned by [runs.create],
    [runs.retrieve] and [runs.submitToolOutputs].  [required_action] holds
    [required_action.submit_tool_outputs.tool_calls] when present. *)
Record Run := mkRun {
  run_id : string;
  status : string;
  required_action : option (list ToolCall)
}.

(** The module-level variables [shapes] and [activeRun], and the number of
    calls made to [Math.random] so far. *)
Record session := mkSession {
  shapes : list Shape;
  activeRun : option Run;
  random_calls : nat
}.

Definition set_shapes (l : list Shape) (st : session) : session :=
  mkSession l (activeRun st) (random_calls st).

Definition set_activeRun (r : option Run) (st : session) : session :=
  mkSession (shapes st) r (random_calls st).

(** ** Effects *)

Inductive payload :=
| PText (s : string)
| PShapes (l : list Shape)
| PShape (s : Shape).

Inductive api_call :=
| MessagesCreate (content : string)
| RunsCreate
| RunsRetrieve (run : string)
| SubmitToolOutputs (run : string) (tool_outputs : list ToolOutput)
| Sleep (ms : Z).

Inductive effect :=
| SocketEmit (socket : string) (event : string) (p : payload)
| BroadcastEmit (socket : string) (event : string) (p : payload)
| ConsoleError (text : string) (error : option exn)
| Call (c : api_call).

(** ** The tool handlers *)

(** The members of [Object.prototype].  [functions] is an object literal, so
    [functions[name]] finds them too. *)
Inductive member :=
| OP_constructor
| OP_hasOwnProperty
| OP_isPrototypeOf
| OP_propertyIsEnumerable
| OP_toLocaleString
| OP_toString
| OP_valueOf
| OP_defineGetter
| OP_defineSetter
| OP_lookupGetter
| OP_lookupSetter
| OP_proto.

(** The places where the engine itself raises a TypeError. *)
Inductive fault :=
| ReadOfNullish (v : jsval) (f : field)   (* v.f on null or undefined *)
| NotAFunction                            (* calling a value that is no function *)
| NullishThis (m : member).               (* a method that needs an object as this *)

Module Backend.
Section Builtins.

(** The built-ins the program calls: [JSON.parse] ([inl e] when it throws
    [e]), [JSON.stringify(shapes)], [JSON.stringify(shapes, null, 2)], the
    successive results of [Math.random()], and the message text the engine
    gives to its TypeErrors. *)
Variable JSON_parse : string -> exn + jsval.
Variable JSON_stringify : list Shape -> string.
Variable JSON_stringify_indented : list Shape -> string.
Variable Math_random : nat -> double.
Variable TypeError_message : fault -> string.

(** A handler returns the store it leaves behind and the exception it threw,
    if any. *)
Definition handler := jsval -> session -> session * option exn.

Definition black : jsval := VStr "hsl(0, 0%, 0%)".

Definition createShape : handler := fun toolOutput st =>
  if negb (Number_isFinite (read toolOutput Fx))
     || negb (Number_isFinite (read toolOutput Fy))
     || negb (Number_isFinite (read toolOutput Fw))
     || negb (Number_isFinite (read toolOutput Fh))
  then (st, Some (Error "required params were not given"))
  else
    let generatedShape := {|
      shape_x := read toolOutput Fx;
      shape_y := read toolOutput Fy;
      shape_w := read toolOutput Fw;
      shape_h := read toolOutput Fh;
      shape_color := coalesce (read toolOutput Fcolor) black;
      shape_id :=
        VNum (Math_floor
                (multiply (Math_random (random_calls st)) (literal 100000)))
    |} in
    (mkSession (shapes st ++ [generatedShape]) (activeRun st)
               (S (random_calls st)), None).

(** The shape [editExistingShape] leaves in place of [editShape]. *)
Definition edited (toolOutput : jsval) (editShape : Shape) : Shape := {|
  shape_x := coalesce (read toolOutput Fx) (shape_x editShape);
  shape_y := coalesce (read toolOutput Fy) (shape_y editShape);
  shape_w := coalesce (read toolOutput Fw) (shape_w editShape);
  shape_h := coalesce (read toolOutput Fh) (shape_h editShape);
  shape_color := coalesce (read toolOutput Fcolor) (shape_color editShape);
  shape_id := shape_id editShape
|}.

(** The callback of [shapes.find] evaluates [toolOutput.id] once per visited
    shape: on a non-empty collection a null or undefined argument is a
    TypeError, on an empty one the callback never runs. *)
Definition editExistingShape : handler := fun toolOutput st =>
  match shapes st with
  | [] => (st, Some (Error "could not find shape"))
  | _ :: _ =>
    if nullish toolOutput
    then (st, Some (TypeError (TypeError_message (ReadOfNullish toolOutput Fid))))
    else
      match list_find (λ shape, strict_eq (shape_id shape) (read toolOutput Fid))
                      (shapes st) with
      | None => (st, Some (Error "could not find shape"))
      | Some (i, editShape) =>
        (set_shapes (<[i := edited toolOutput editShape]> (shapes st)) st, None)
      end
  end.

(** ** The registry [functions] *)

Inductive callee :=
| Own_createShape
| Own_editExistingShape
| Inherited (m : member).

Definition Object_prototype : list (string * member) :=
  [ ("constructor", OP_constructor);
    ("hasOwnProperty", OP_hasOwnProperty);
    ("isPrototypeOf", OP_isPrototypeOf);
    ("propertyIsEnumerable", OP_propertyIsEnumerable);
    ("toLocaleString", OP_toLocaleString);
    ("toString", OP_toString);
    ("valueOf", OP_valueOf);
    ("__defineGetter__", OP_defineGetter);
    ("__defineSetter__", OP_defineSetter);
    ("__lookupGetter__", OP_lookupGetter);
    ("__lookupSetter__", OP_lookupSetter);
    ("__proto__", OP_proto) ].

Fixpoint lookup_member (name : string) (l : list (string * member))
  : option member :=
  match l with
  | [] => None
  | (k, m) :: rest => if String.eqb name k then Some m else lookup_member name rest
  end.

(** [functions[name]]: the two own properties first, then the prototype;
    [None] is [undefined]. *)
Definition functions (name : string) : option callee :=
  if String.eqb name "createShape" then Some Own_createShape
  else if String.eqb name "editExistingShape" then Some Own_editExistingShape
  else Inherited <$> lookup_member name Object_prototype.

(** [fn(functionArgs)] for an inherited member, called as a plain function
    in module code, so with [this] undefined: the constructor [Object] and
    [toString] return, [isPrototypeOf] returns false on a primitive argument,
    the value of [__proto__] is no function, and the others need an object
    as [this]. *)
Definition call_member (m : member) (args : jsval) : option exn :=
  match m with
  | OP_constructor | OP_toString => None
  | OP_isPrototypeOf =>
    match args with
    | VObj _ | VArr _ => Some (TypeError (TypeError_message (NullishThis m)))
    | _ => None
    end
  | OP_proto => Some (TypeError (TypeError_message NotAFunction))
  | _ => Some (TypeError (TypeError_message (NullishThis m)))
  end.

Definition invoke (fn : callee) : handler := fun functionArgs st =>
  match fn with
  | Own_createShape => createShape functionArgs st
  | Own_editExistingShape => editExistingShape functionArgs st
  | Inherited m => (st, call_member m functionArgs)
  end.

(** ** Answering tool calls *)

Definition restarting (socket : string) : effect :=
  SocketEmit socket "updates" (PText "Process encountered errors, restarting...").

(** The callback of [toolCalls.map]: the store and effects it leaves, and the
    tool output it returns or the exception that escapes it. *)
Definition dispatch (socket : string) (call : ToolCall) (st : session)
  : session * list effect * (exn + ToolOutput) :=
  match JSON_parse (function_arguments call) with
  | inl err => (st, [], inl err)
  | inr functionArgs =>
    match functions (function_name call) with
    | None =>
      (st,
       [ restarting socket;
         ConsoleError "function name did not match accepted function arguments" None ],
       inr {| tool_call_id := default EmptyString (call_id call);
              output := "error: couldnt find function" |})
    | Some fn =>
      match invoke fn functionArgs st with
      | (st', None) =>
        (st', [],
         inr {| tool_call_id := default EmptyString (call_id call);
                output := "Success. New shapes array: " +:+ JSON_stringify (shapes st') |})
      | (st', Some err) =>
        (st', [ restarting socket ],
         inr {| tool_call_id := default EmptyString (call_id call);
                output := if instanceof_Error err then Error_toString err
                          else "unknown error occured" |})
      end
    end
  end.

(** [toolCalls.map(...)]: the calls are answered from left to right, each on
    the store the previous one left; an exception ends the map. *)
Fixpoint map_calls (socket : string) (toolCalls : list ToolCall) (st : session)
  : session * list effect * (exn + list ToolOutput) :=
  match toolCalls with
  | [] => (st, [], inr [])
  | call :: rest =>
    match dispatch socket call st with
    | (st1, effs1, inl err) => (st1, effs1, inl err)
    | (st1, effs1, inr out) =>
      match map_calls socket rest st1 with
      | (st2, effs2, inl err) => (st2, effs1 ++ effs2, inl err)
      | (st2, effs2, inr outs) => (st2, effs1 ++ effs2, inr (out :: outs))
      end
    end
  end.

(** ** The run driver [handleUserPrompt] *)

Definition failedStatus : list string := ["cancelled"; "failed"; "expired"].
Definition pendingStatus : list string := ["in_progress"; "queued"; "requires_action"].

(** [list.includes(s)] *)
Definition includes (l : list string) (s : string) : bool :=
  existsb (String.eqb s) l.

(** The awaits of [handleUserPrompt], in source order.  The sleeping handler
    keeps its local [runResult]; at the other points the awaited value
    replaces it. *)
Inductive point :=
| AwaitMessagesCreate
| AwaitRunsCreate
| AwaitFirstRetrieve
| AwaitSleep (runResult : Run)
| AwaitRetrieve
| AwaitSubmit.

(** How an awaited call completes.  [Returned r]: it resolved, [r] being the
    run object it resolved with (the program ignores the value of
    [messages.create] and of [sleep]); [Threw e]: it rejected with [e]. *)
Inductive response :=
| Returned (r : Run)
| Threw (e : exn).

(** How the promise returned by [handleUserPrompt] ends.  [Abandoned]: the
    executor threw outside its [try], and the promise stays pending for
    ever. *)
Inductive outcome :=
| Resolved
| Rejected (reason : option exn)
| Abandoned (e : exn).

(** Where a segment of the handler stops.  [Spin]: the [while] loop iterates
    without reaching an await again, and control never returns to the event
    loop. *)
Inductive next :=
| Suspend (p : point)
| Done (o : outcome)
| Spin.

Definition segment := (session * list effect * next)%type.

(** The [catch] block. *)
Definition catch (error : exn) (st : session) (effs : list effect) : segment :=
  (st, effs ++ [ConsoleError "Error retrieving the run:" (Some error)],
   Done (Rejected None)).

(** From the head of the [while] loop, with [runResult] in hand, to the next
    await or to the end of the function. *)
Definition loop (socket : string) (runResult : Run) (st : session) : segment :=
  if includes pendingStatus (status runResult) then
    if String.eqb (status runResult) "in_progress"
       || String.eqb (status runResult) "queued"
    then
      (st,
       [ SocketEmit socket "updates" (PText "Processing your request...");
         Call (Sleep 1000) ],
       Suspend (AwaitSleep runResult))
    else
      let toolCalls := default [] (required_action runResult) in
      match map_calls socket toolCalls st with
      | (st', effs, inl error) => catch error st' effs
      | (st', effs, inr toolOutputs) =>
        match activeRun st' with
        | Some run =>
          (st', effs ++ [Call (SubmitToolOutputs (run_id run) toolOutputs)],
           Suspend AwaitSubmit)
        | None => (st', effs, Spin)
        end
      end
  else
    (set_activeRun None st, [SocketEmit socket "updates" (PText EmptyString)],
     Done Resolved).

(** A promise is settled once: a later [resolve] or [reject] does nothing. *)
Definition settled_first (o : outcome) (n : next) : next :=
  match n with
  | Done _ => Done o
  | _ => n
  end.

(** From the first status fetch on. *)
Definition first_fetch (socket : string) (runResult : Run) (st : session)
  : segment :=
  if includes failedStatus (status runResult) then
    let '(st', effs, n) := loop socket runResult (set_activeRun None st) in
    (st',
     SocketEmit socket "updates"
       (PText ("Process failed with status: " +:+ status runResult)) :: effs,
     settled_first
       (Rejected (Some (Error ("run result failed with status: "
                               +:+ status runResult)))) n)
  else loop socket runResult st.

(** The handler resumes at [p] with the completion [res] of the call it was
    awaiting. *)
Definition resume (socket : string) (p : point) (res : response) (st : session)
  : segment :=
  match p, res with
  | AwaitMessagesCreate, Returned _ =>
    (st, [Call RunsCreate], Suspend AwaitRunsCreate)
  | AwaitMessagesCreate, Threw e => (st, [], Done (Abandoned e))
  | AwaitRunsCreate, Returned run =>
    (set_activeRun (Some run) st, [Call (RunsRetrieve (run_id run))],
     Suspend AwaitFirstRetrieve)
  | AwaitRunsCreate, Threw e => (st, [], Done (Abandoned e))
  | AwaitFirstRetrieve, Returned runResult => first_fetch socket runResult st
  | AwaitSleep runResult, Returned _ =>
    match activeRun st with
    | Some run => (st, [Call (RunsRetrieve (run_id run))], Suspend AwaitRetrieve)
    | None => loop socket runResult st
    end
  | AwaitRetrieve, Returned runResult => loop socket runResult st
  | AwaitSubmit, Returned runResult => loop socket runResult st
  | _, Threw e => catch e st []
  end.

Definition newline : string := String (ascii_of_nat 10) EmptyString.

Definition addMessageContext (message : string) (l : list Shape) : string :=
  "  This is the user's request:" +:+ newline +:+ newline
  +:+ "  " +:+ message +:+ "." +:+ newline +:+ newline
  +:+ "  These are the current shapes on the canvas:" +:+ newline +:+ newline
  +:+ "  " +:+ JSON_stringify_indented l +:+ newline +:+ newline
  +:+ "  Remember, the y axis goes from negative (top) to positive (bottom). The x axis goes from negative (left) to positive (right). [0, 0] is in the middle of the screen."
  +:+ newline +:+ "  ".

(** [handleUserPrompt(socket, message)] up to its first await. *)
Definition handleUserPrompt (message : string) (st : session) : segment :=
  (st, [Call (MessagesCreate (addMessageContext message (shapes st)))],
   Suspend AwaitMessagesCreate).

(** ** The socket listeners and the event loop *)

(** One call of the ['handle-user-prompt'] listener that entered
    [handleUserPrompt]: the socket it serves and where the handler stands. *)
Record task := mkTask {
  task_socket : string;
  task_next : next
}.

Record config := mkConfig {
  store : session;
  tasks : list task;
  log : list effect
}.

Definition initial : config := mkConfig (mkSession [] None 0) [] [].

(** What the listener does once [await handleUserPrompt(...)] is over: the
    snapshot if the promise resolved, nothing if it rejected (the listener
    rethrows) or never settles. *)
Definition after_await (socket : string) (n : next) (st : session)
  : list effect :=
  match n with
  | Done Resolved => [SocketEmit socket "snapshot" (PShapes (shapes st))]
  | _ => []
  end.

Definition on_handle_user_prompt (socket message : string) (c : config)
  : config :=
  match activeRun (store c) with
  | None =>
    let '(st, effs, n) := handleUserPrompt message (store c) in
    mkConfig st (tasks c ++ [mkTask socket n])
             (log c ++ effs ++ after_await socket n st)
  | Some _ =>
    mkConfig (store c) (tasks c)
             (log c ++ [SocketEmit socket "snapshot" (PShapes (shapes (store c)))])
  end.

Definition on_create_shape (socket : string) (shape : Shape) (c : config)
  : config :=
  let l := shapes (store c) ++ [shape] in
  mkConfig (set_shapes l (store c)) (tasks c)
           (log c ++ [BroadcastEmit socket "snapshot" (PShapes l)]).

(** The payload of ['update-shape'] is an object, given by its properties. *)
Definition on_update_shape (socket : string)
    (updatedShape : list (string * jsval)) (c : config) : config :=
  match list_find
          (λ s, strict_eq (shape_id s) (read (VObj updatedShape) Fid))
          (shapes (store c)) with
  | None => c
  | Some (i, shape) =>
    let shape' := {|
      shape_x := read (VObj updatedShape) Fx;
      shape_y := read (VObj updatedShape) Fy;
      shape_w := read (VObj updatedShape) Fw;
      shape_h := read (VObj updatedShape) Fh;
      shape_color := shape_color shape;
      shape_id := shape_id shape
    |} in
    mkConfig (set_shapes (<[i := shape']> (shapes (store c))) (store c))
             (tasks c)
             (log c ++ [BroadcastEmit socket "update-shape" (PShape shape')])
  end.

(** The awaited call of task [i] completes and the task runs its next
    segment. *)
Definition on_completion (i : nat) (res : response) (c : config) : config :=
  match tasks c !! i with
  | Some (mkTask socket (Suspend p)) =>
    let '(st, effs, n) := resume socket p res (store c) in
    mkConfig st (<[i := mkTask socket n]> (tasks c))
             (log c ++ effs ++ after_await socket n st)
  | _ => c
  end.

Inductive event :=
| HandleUserPrompt (socket message : string)
| CreateShape (socket : string) (shape : Shape)
| UpdateShape (socket : string) (updatedShape : list (string * jsval))
| Completion (i : nat) (res : response).

Definition step (c : config) (e : event) : config :=
  match e with
  | HandleUserPrompt socket message => on_handle_user_prompt socket message c
  | CreateShape socket shape => on_create_shape socket shape c
  | UpdateShape socket updatedShape => on_update_shape socket updatedShape c
  | Completion i res => on_completion i res c
  end.

Definition spinning (t : task) : bool :=
  match task_next t with
  | Spin => true
  | _ => false
  end.

(** The event loop: events are served in order, as long as no handler keeps
    the thread.  This is the loop of a process that stays alive.  When the
    promise of [handleUserPrompt] is rejected, the listener that awaits it
    rejects in turn and nothing handles that rejection: what happens then is
    up to the host.  Node since version 15 ends the process by default, so
    that no event is served any more; a host that only reports unhandled
    rejections goes on as [serve] does. *)
Definition serve (c : config) (e : event) : config :=
  if existsb spinning (tasks c) then c else step c e.

Definition run (c : config) (es : list event) : config :=
  fold_left serve es c.

End Builtins.
End Backend.

Import Backend.

(** ** Sample built-ins

    Concrete built-ins on which the model is run on concrete inputs.  They
    agree with the engine on the texts and collections they are applied to
    below; the message texts are V8's. *)
Module Sample.

Definition quoted (s : string) : string :=
  String (ascii_of_nat 34) s +:+ String (ascii_of_nat 34) EmptyString.

(** The text [{"x":0,"y":0,"w":50,"h":50,"color":"hsl(0,100%,50%)"}] *)
Definition red_square_text : string :=
  "{" +:+ quoted "x" +:+ ":0," +:+ quoted "y" +:+ ":0," +:+ quoted "w"
  +:+ ":50," +:+ quoted "h" +:+ ":50," +:+ quoted "color" +:+ ":"
  +:+ quoted "hsl(0,100%,50%)" +:+ "}".

Definition int (z : Z) : jsval := VNum (Finite (inject_Z z)).

Definition red_square : jsval :=
  VObj [ ("x", int 0); ("y", int 0); ("w", int 50); ("h", int 50);
         ("color", VStr "hsl(0,100%,50%)") ].

(** The text [{"id":42,"x":-10}] *)
Definition move_left_text : string :=
  "{" +:+ quoted "id" +:+ ":42," +:+ quoted "x" +:+ ":-10}".

Definition move_left : jsval := VObj [ ("id", int 42); ("x", int (-10)) ].

(** The text [{"x":1e999,"y":0,"w":1,"h":1}], whose [x] overflows. *)
Definition overflow_text : string :=
  "{" +:+ quoted "x" +:+ ":1e999," +:+ quoted "y" +:+ ":0," +:+ quoted "w"
  +:+ ":1," +:+ quoted "h" +:+ ":1}".

Definition overflow : jsval :=
  VObj [ ("x", VNum (Infinity false)); ("y", int 0); ("w", int 1); ("h", int 1) ].

Definition JSON_parse (text : string) : exn + jsval :=
  if String.eqb text "{}" then inr (VObj [])
  else if String.eqb text "null" then inr VNull
  else if String.eqb text red_square_text then inr red_square
  else if String.eqb text move_left_text then inr move_left
  else if String.eqb text overflow_text then inr overflow
  else inl (SyntaxError "Unexpected end of JSON input").

(** Only the empty collection is serialised in full. *)
Definition JSON_stringify (l : list Shape) : string :=
  match l with
  | [] => "[]"
  | _ => "[ ... ]"
  end.

(** Every draw is one half. *)
Definition Math_random (n : nat) : double :=
  S754_finite false 4503599627370496 (-53).

Definition TypeError_message (f : fault) : string :=
  match f with
  | ReadOfNullish VNull _ => "Cannot read properties of null (reading 'id')"
  | ReadOfNullish _ _ => "Cannot read properties of undefined (reading 'id')"
  | NotAFunction => "fn is not a function"
  | NullishThis _ => "Cannot convert undefined or null to object"
  end.

(** The shape [{id:42, x:0, y:0, w:10, h:10}], without a color. *)
Definition shape42 : Shape :=
  mkShape (int 0) (int 0) (int 10) (int 10) VUndefined (int 42).

Definition shape7 : Shape :=
  mkShape (int 5) (int 5) (int 1) (int 1) (VStr "hsl(0, 0%, 0%)") (int 7).

Definition idle (l : list Shape) : session := mkSession l None 0.

(** The backend on these built-ins. *)
Definition createShape : handler := Backend.createShape Math_random.
Definition editExistingShape : handler := Backend.editExistingShape TypeError_message.
Definition dispatch :=
  Backend.dispatch JSON_parse JSON_stringify Math_random TypeError_message.
Definition on_completion :=
  Backend.on_completion JSON_parse JSON_stringify Math_random TypeError_message.
Definition run :=
  Backend.run JSON_parse JSON_stringify JSON_stringify Math_random
              TypeError_message.
Definition addMessageContext := Backend.addMessageContext JSON_stringify.

(** A run object in the given status, without required action. *)
Definition run_in (s : string) : Run := mkRun "run_1" s None.

(** A run object that requires the given tool calls. *)
Definition requiring (calls : list ToolCall) : Run :=
  mkRun "run_1" "requires_action" (Some calls).

(** Client [a] sends an instruction; [messages.create] and [runs.create]
    resolve, the run being queued. *)
Definition started : list event :=
  [ HandleUserPrompt "a" "draw";
    Completion 0 (Returned (run_in "queued"));
    Completion 0 (Returned (run_in "queued")) ].

(** The first status fetch finds the run completed. *)
Definition completes : list event :=
  started ++ [ Completion 0 (Returned (run_in "completed")) ].

(** The first status fetch finds the run failed. *)
Definition fails_at_once : list event :=
  started ++ [ Completion 0 (Returned (run_in "failed")) ].

(** The run is queued at the first fetch and failed at the second. *)
Definition fails_later : list event :=
  started ++ [ Completion 0 (Returned (run_in "queued"));
               Completion 0 (Returned (run_in "queued"));
               Completion 0 (Returned (run_in "failed")) ].

(** The first status fetch is rejected by the service. *)
Definition fetch_throws : list event :=
  started ++ [ Completion 0 (Threw (Error "Connection error.")) ].

(** The run requires one call of [createShape] whose argument text is cut
    short. *)
Definition truncated_call : ToolCall :=
  mkToolCall (Some "call_1") "createShape" "{".

Definition truncated_arguments : list event :=
  started ++ [ Completion 0 (Returned (requiring [truncated_call])) ].

(** The run requires [createShape], then an unknown function and
    [editExistingShape] together, and completes. *)
Definition two_batches : list event :=
  started
  ++ [ Completion 0
         (Returned (requiring [mkToolCall (Some "call_1") "createShape" red_square_text]));
       Completion 0
         (Returned (requiring [ mkToolCall (Some "call_2") "deleteShape" "{}";
                                mkToolCall (Some "call_3") "editExistingShape"
                                           move_left_text ]));
       Completion 0 (Returned (run_in "completed")) ].

(** A call to a function that is not a tool, named like a member of
    [Object.prototype]. *)
Definition toString_call : ToolCall := mkToolCall (Some "call_1") "toString" "{}".

Definition overflow_call : ToolCall :=
  mkToolCall (Some "call_1") "createShape" overflow_text.

(** The answers of a run that requires two batches and completes. *)
Definition two_batch_answers : list response :=
  [ Returned (requiring [mkToolCall (Some "call_1") "createShape" red_square_text]);
    Returned (requiring [ mkToolCall (Some "call_2") "deleteShape" "{}";
                          mkToolCall (Some "call_3") "editExistingShape"
                                     move_left_text ]);
    Returned (run_in "completed") ].

(** The handler has polled once and awaits the status again. *)
Definition polled_once : list event :=
  started ++ [ Completion 0 (Returned (run_in "queued"));
               Completion 0 (Returned (run_in "queued")) ].

(** Two instructions arrive before the first run is created. *)
Definition two_at_once : list event :=
  [ HandleUserPrompt "a" "one";
    HandleUserPrompt "b" "two";
    Completion 0 (Returned (run_in "queued"));
    Completion 1 (Returned (run_in "queued"));
    Completion 0 (Returned (mkRun "run_1" "queued" None));
    Completion 1 (Returned (mkRun "run_2" "queued" None)) ].

(** Two instructions arrive before the first run is created, and the
    first handler has its run before [messages.create] of the second
    resolves: [messages.create] and [runs.create] of [a], then those of
    [b]. *)
Definition second_before_first_run : list event :=
  [ HandleUserPrompt "a" "one";
    HandleUserPrompt "b" "two";
    Completion 0 (Returned (run_in "queued"));
    Completion 0 (Returned (mkRun "run_1" "queued" None));
    Completion 1 (Returned (run_in "queued"));
    Completion 1 (Returned (mkRun "run_2" "queued" None)) ].

End Sample.

(** ** Vocabulary of the properties *)

(** The field [f] of a shape. *)
Definition get (f : field) (s : Shape) : jsval :=
  match f with
  | Fx => shape_x s
  | Fy => shape_y s
  | Fw => shape_w s
  | Fh => shape_h s
  | Fcolor => shape_color s
  | Fid => shape_id s
  end.

(** No shape of [l] has the id [v]. *)
Definition no_shape_has (v : jsval) (l : list Shape) : Prop :=
  Forall (λ shape, strict_eq (shape_id shape) v = false) l.

(** [shape] is the first shape of [l] whose id is [v], at index [i]: what
    [l.find((s) => s.id === v)] returns. *)
Definition first_with_id (v : jsval) (l : list Shape) (i : nat) (shape : Shape)
  : Prop :=
  list_find (λ s, strict_eq (shape_id s) v) l = Some (i, shape).

(** The answer to [call] that reports the caught exception [err]. *)
Definition error_output (call : ToolCall) (err : exn) : ToolOutput :=
  {| tool_call_id := default EmptyString (call_id call);
     output := Error_toString err |}.

(** The calls of [runs.create] among the effects. *)
Definition is_runs_create (e : effect) : bool :=
  match e with
  | Call RunsCreate => true
  | _ => false
  end.

Definition runs_created (l : list effect) : nat :=
  length (List.filter is_runs_create l).

(** The submissions of tool outputs among the effects. *)
Definition is_submission (e : effect) : bool :=
  match e with
  | Call (SubmitToolOutputs _ _) => true
  | _ => false
  end.

Definition submissions (l : list effect) : nat :=
  length (List.filter is_submission l).

(** The call identifiers answered by each submission, in order. *)
Fixpoint submitted (l : list effect) : list (list string) :=
  match l with
  | [] => []
  | Call (SubmitToolOutputs _ outs) :: rest =>
    (tool_call_id <$> outs) :: submitted rest
  | _ :: rest => submitted rest
  end.

(** The handlers that have not yet asked for their run. *)
Definition before_runs_create (t : task) : bool :=
  match task_next t with
  | Suspend AwaitMessagesCreate => true
  | _ => false
  end.

Definition waiting (l : list task) : nat :=
  length (List.filter before_runs_create l).

(** The ['snapshot'] events among the effects, and who receives an emitted
    event: [socket.emit] reaches the socket's client, [socket.broadcast.emit]
    every other client. *)
Definition is_snapshot (e : effect) : bool :=
  match e with
  | SocketEmit _ ev _ | BroadcastEmit _ ev _ => String.eqb ev "snapshot"
  | _ => false
  end.

Definition received_by (client : string) (e : effect) : bool :=
  match e with
  | SocketEmit s _ _ => String.eqb s client
  | BroadcastEmit s _ _ => negb (String.eqb s client)
  | _ => false
  end.

(** The snapshots that reach [client]. *)
Definition snapshots_for (client : string) (l : list effect) : list effect :=
  List.filter (λ e, is_snapshot e && received_by client e) l.

(** Every call of the batch has an argument text that [JSON.parse] accepts. *)
Definition parses (JSON_parse : string -> exn + jsval) (call : ToolCall) : Prop :=
  ∃ v, JSON_parse (function_arguments call) = inr v.

(** What the answering of tool calls may emit: progress notices to the
    caller and console messages. *)
Definition notice (e : effect) : bool :=
  match e with
  | SocketEmit _ ev _ => String.eqb ev "updates"
  | ConsoleError _ _ => true
  | _ => false
  end.

(** No more runs were asked for than handlers were started, counting the
    handlers that have yet to ask. *)
Definition accounted (c : config) : Prop :=
  (runs_created (log c) + waiting (tasks c) ≤ length (tasks c))%nat.

(** The status fetches and the submission, the awaits inside the [try]
    whose value is a run status. *)
Definition fetches (p : point) : bool :=
  match p with
  | AwaitFirstRetrieve | AwaitRetrieve | AwaitSubmit => true
  | _ => false
  end.

(** The awaits inside the [try]. *)
Definition in_try (p : point) : bool :=
  match p with
  | AwaitMessagesCreate | AwaitRunsCreate => false
  | _ => true
  end.

(** While handler [i] is suspended inside the [try], the run handle is set. *)
Definition holds_handle (i : nat) (c : config) : Prop :=
  ∀ socket p,
    tasks c !! i = Some (mkTask socket (Suspend p)) →
    in_try p = true → activeRun (store c) ≠ None.

(** The completion [res] hands handler [i] a batch of tool calls: the
    handler awaits a run status and the run requires action. *)
Definition brings_batch (i : nat) (c : config) (res : response) : bool :=
  match tasks c !! i, res with
  | Some (mkTask _ (Suspend p)), Returned r =>
    fetches p && String.eqb (status r) "requires_action"
  | _, _ => false
  end.

(** Every argument text that comes with [res] parses. *)
Definition well_formed (JSON_parse : string -> exn + jsval) (res : response)
  : Prop :=
  match res with
  | Returned r => Forall (parses JSON_parse) (default [] (required_action r))
  | Threw _ => True
  end.

Section Counting.

Context (JSON_parse : string -> exn + jsval)
        (JSON_stringify JSON_stringify_indented : list Shape -> string)
        (Math_random : nat -> double)
        (TypeError_message : fault -> string).

(** The batches handed to handler [i] while it alone is served [answers]. *)
Fixpoint batches_handed (i : nat) (c : config) (answers : list response)
  : nat :=
  match answers with
  | [] => 0
  | res :: rest =>
    (if brings_batch i c res then 1 else 0)
    + batches_handed i
        (serve JSON_parse JSON_stringify JSON_stringify_indented Math_random
               TypeError_message c (Completion i res))
        rest
  end.

End Counting.

(** ** Presence: the connection listener and its closures *)

(** An element of [users].  The set holds objects, compared by reference:
    [user_ref] is the identity of the object, the number of the connection
    that made it; [user_id] is its [id], the socket's. *)
Record user := mkUser {
  user_ref : nat;
  user_id : string
}.

(** What the presence listeners do: effects of the kinds above, and the
    [console.log] of a connection. *)
Inductive emitted :=
| Reliable (e : effect)
| ConsoleLog (text arg : string).

(** The backend with the set [users], in insertion order, and the number of
    connections made so far. *)
Record server := mkServer {
  backend : config;
  users : list user;
  connections : nat
}.

(** [io.on('connection', ...)] up to the registration of the listeners. *)
Definition on_connection (socket : string) (s : server) : server * list emitted :=
  let newUser := mkUser (connections s) socket in
  let users' := users s ++ [newUser] in
  (mkServer (backend s) users' (S (connections s)),
   [ ConsoleLog "New user connected:" socket;
     Reliable (SocketEmit socket "snapshot" (PShapes (shapes (store (backend s)))));
     Reliable (BroadcastEmit socket "user-entered" (PText (user_id newUser))) ]
   ++ ((λ u, Reliable (SocketEmit socket "user-entered" (PText (user_id u))))
         <$> users')).

(** The ['disconnect'] listener of the connection that made [newUser]. *)
Definition on_disconnect (newUser : user) (s : server) : server * list emitted :=
  (mkServer (backend s)
            (List.filter (λ u, negb (Nat.eqb (user_ref u) (user_ref newUser)))
                         (users s))
            (connections s),
   [ Reliable (BroadcastEmit (user_id newUser) "user-exited"
                 (PText (user_id newUser))) ]).

(** The references in [users] are distinct and were all handed out. *)
Definition distinct_refs (s : server) : Prop :=
  NoDup (user_ref <$> users s)
  ∧ Forall (λ u, user_ref u < connections s) (users s).

(** ** The tools described to the assistant *)

Record property_schema := mkProperty {
  property_name : string;
  property_type : string;
  property_description : string
}.

(** An element of the array [getWhiteboardTools] returns: [type], and of
    [function] the [name], the [description] and, of [parameters], the
    [type], the [properties] in source order and [required]. *)
Record tool_schema := mkTool {
  tool_type : string;
  tool_name : string;
  tool_description : string;
  parameters_type : string;
  tool_properties : list property_schema;
  tool_required : list string
}.

Definition createShape_schema : tool_schema :=
  mkTool "function" "createShape" "Create a rectangle in a whiteboard"
    "object"
    [ mkProperty "x" "number" "x position";
      mkProperty "y" "number" "y position";
      mkProperty "w" "number" "width of rectangle";
      mkProperty "h" "number" "height of rectangle";
      mkProperty "color" "string"
        "hsl(_, _%, _%) if a color isn't specified, just use black." ]
    [ "x"; "y"; "w"; "h" ].

Definition editExistingShape_schema : tool_schema :=
  mkTool "function" "editExistingShape"
    "Updates the properties for a shape given its id. For example, if the shape array looks like this [{id: 1234, x: 0, y: 0, color: `hsl(0, 0%, 0%)`}] and my user request is to move this shape to the left, I should return {id: 1234, x: -10}"
    "object"
    [ mkProperty "id" "number" "the id of the existing shape to edit";
      mkProperty "x" "number" "x position";
      mkProperty "y" "number" "y position";
      mkProperty "w" "number" "width of rectangle";
      mkProperty "h" "number" "height of rectangle";
      mkProperty "color" "string"
        "hsl(_, _%, _%) if a color isn't specified, just use black." ]
    [ "id" ].

Definition getWhiteboardTools : list tool_schema :=
  [ createShape_schema; editExistingShape_schema ].

(** ** More vocabulary *)

(** The console message about a function name that [functions] lacks. *)
Definition unknown_function_logged : effect :=
  ConsoleError "function name did not match accepted function arguments" None.

(** The events of [rs] rounds of polling of handler [i], and what they do.
    A round is the status fetch resolving with the run [r] and then the
    timer of [sleep] (whose value the program ignores). *)
Definition polling (i : nat) (rs : list Run) : list event :=
  concat ((λ r, [Completion i (Returned r); Completion i (Returned r)]) <$> rs).

Definition polling_effects (socket : string) (active : Run) (rs : list Run)
  : list effect :=
  concat ((λ _ : Run,
             [ SocketEmit socket "updates" (PText "Processing your request...");
               Call (Sleep 1000);
               Call (RunsRetrieve (run_id active)) ]) <$> rs).

(** The ids of a collection, in order. *)
Definition ids (l : list Shape) : list jsval := shape_id <$> l.

Definition is_call (e : effect) : bool :=
  match e with
  | Call _ => true
  | _ => false
  end.

(** The calls made to the service, in order. *)
Definition calls (l : list effect) : list effect := List.filter is_call l.

Definition snapshots (l : list effect) : list effect := List.filter is_snapshot l.

(** The run is still queued or in progress. *)
Definition still_running (r : Run) : bool :=
  String.eqb (status r) "in_progress" || String.eqb (status r) "queued".

(** The ['user-entered'] events among the effects that are emitted on
    [socket], with the ids they carry. *)
Fixpoint entered_for (socket : string) (l : list emitted) : list string :=
  match l with
  | [] => []
  | Reliable (SocketEmit s "user-entered" (PText id)) :: rest =>
    if String.eqb s socket then id :: entered_for socket rest
    else entered_for socket rest
  | _ :: rest => entered_for socket rest
  end.

(** * Properties *)

(** ** The id of a new shape *)

Section Doubles.

Local Open Scope Z_scope.

(** [SpecFloat]'s iteration is the iteration of [nat]. *)
Lemma iter_pos_nat {A : Type} (f : A → A) (p : positive) :
  ∀ x, SpecFloat.iter_pos f p x = Nat.iter (Pos.to_nat p) f x.
Proof.
  induction p as [p IH|p IH|]; intros x; cbn [SpecFloat.iter_pos].
  - rewrite !IH, Pos2Nat.inj_xI.
    replace (S (2 * Pos.to_nat p)) with (Pos.to_nat p + (Pos.to_nat p + 1))%nat
      by lia.
    by rewrite !Nat.iter_add.
  - rewrite !IH, Pos2Nat.inj_xO.
    replace (2 * Pos.to_nat p)%nat with (Pos.to_nat p + Pos.to_nat p)%nat by lia.
    by rewrite Nat.iter_add.
  - reflexivity.
Qed.

(** One shift to the right halves the mantissa and keeps the bit that
    falls off as the rounding bit. *)
Lemma shr_1_spec (mrs : shr_record) :
  0 ≤ shr_m mrs →
  shr_m (shr_1 mrs) = shr_m mrs / 2 ∧ shr_r (shr_1 mrs) = Z.odd (shr_m mrs).
Proof.
  destruct mrs as [[|[p|p|]|p] r s]; cbn [shr_m shr_1 shr_r]; intros H;
    try lia; rewrite <- Z.div2_div; split; reflexivity.
Qed.

Lemma shr_nat (k : nat) (mrs : shr_record) :
  0 ≤ shr_m mrs →
  shr_m (Nat.iter k shr_1 mrs) = shr_m mrs / 2 ^ Z.of_nat k
  ∧ (∀ j : nat, k = S j →
       shr_r (Nat.iter k shr_1 mrs) = Z.odd (shr_m mrs / 2 ^ Z.of_nat j)).
Proof.
  intros Hm. induction k as [|k [IHm IHr]].
  - cbn. split; [by rewrite Z.div_1_r | done].
  - rewrite Nat.iter_succ.
    assert (0 ≤ shr_m (Nat.iter k shr_1 mrs)) as Hk.
    { rewrite IHm. apply Z.div_pos; [done | apply Z.pow_pos_nonneg; lia]. }
    destruct (shr_1_spec _ Hk) as [H1 H2]. split.
    + rewrite H1, IHm, Nat2Z.inj_succ, Z.pow_succ_r by lia.
      rewrite Z.div_div by (try apply Z.pow_pos_nonneg; try apply Z.pow_nonzero; lia).
      f_equal. lia.
    + intros j [= <-]. by rewrite H2, IHm.
Qed.

(** Bringing an exact mantissa to the exponent of its format: the
    mantissa is divided by a power of two, and rounding the quotient to
    nearest adds at most half a unit. *)
Lemma shr_fexp_exact (m e : Z) (mrs : shr_record) (e' : Z) :
  0 ≤ m →
  shr_fexp prec emax m e loc_Exact = (mrs, e') →
  e' = Z.max e (fexp prec emax (Zdigits2 m + e))
  ∧ shr_m mrs = m / 2 ^ (e' - e)
  ∧ 0 ≤ round_nearest_even (shr_m mrs) (loc_of_shr_record mrs)
  ∧ 2 * round_nearest_even (shr_m mrs) (loc_of_shr_record mrs) * 2 ^ (e' - e)
    ≤ 2 * m + 2 ^ (e' - e).
Proof.
  intros Hm. unfold shr_fexp, shr. cbn [shr_record_of_loc].
  destruct (fexp prec emax (Zdigits2 m + e) - e) as [|p|p] eqn:Hn;
    intros [= <- <-].
  - rewrite Z.sub_diag. cbn. rewrite Z.div_1_r. lia.
  - rewrite iter_pos_nat.
    destruct (shr_nat (Pos.to_nat p) (Build_shr_record m false false) Hm)
      as [Hsm Hsr].
    cbn [shr_m] in Hsm, Hsr. rewrite positive_nat_Z in Hsm.
    replace (e + Z.pos p - e) with (Z.pos p) by lia.
    split; [lia |]. split; [exact Hsm |].
    destruct (Pos2Nat.is_succ p) as [j Hj]. specialize (Hsr j Hj).
    assert (Z.pos p = Z.succ (Z.of_nat j)) as Hp by lia.
    set (W := 2 ^ Z.of_nat j) in *.
    assert (0 < W) as HW by (apply Z.pow_pos_nonneg; lia).
    assert (2 ^ Z.pos p = 2 * W) as HT
      by (rewrite Hp, Z.pow_succ_r by lia; reflexivity).
    rewrite HT in *.
    assert (m / (2 * W) = m / W / 2) as Hhalf.
    { rewrite Z.mul_comm, Z.div_div by lia. reflexivity. }
    rewrite Hhalf in Hsm.
    pose proof (Z.mul_div_le m W HW) as HQ.
    pose proof (Z.div_pos m W Hm HW) as HQ0.
    set (Q := m / W) in *.
    pose proof (Z.mul_div_le Q 2 eq_refl) as HM.
    pose proof (Z.div_pos Q 2 HQ0 eq_refl) as HM0.
    destruct (Nat.iter (Pos.to_nat p) shr_1 _) as [M r s].
    cbn [shr_m shr_r loc_of_shr_record] in *. subst M r.
    destruct (Z.odd Q) eqn:Hodd.
    + assert (Q = 2 * (Q / 2) + 1) as HQodd.
      { rewrite (Z.div_mod Q 2) at 1 by lia. rewrite Zmod_odd, Hodd. lia. }
      assert (round_nearest_even (Q / 2) (loc_of_shr_record (Build_shr_record (Q / 2) true s))
              ≤ Q / 2 + 1
              ∧ 0 ≤ round_nearest_even (Q / 2) (loc_of_shr_record (Build_shr_record (Q / 2) true s))) as [Hr Hr0].
      { destruct s; cbn; [lia |]. destruct (Z.even (Q / 2)); lia. }
      cbn [loc_of_shr_record] in *. split; [exact Hr0 |]. nia.
    + assert (round_nearest_even (Q / 2) (loc_of_shr_record (Build_shr_record (Q / 2) false s))
              = Q / 2) as Hr by (by destruct s).
      cbn [loc_of_shr_record] in *. rewrite Hr. split; [lia |]. nia.
  - rewrite Z.sub_diag. cbn. rewrite Z.div_1_r. lia.
Qed.

(** The number of digits of the specification is [Pos.size]. *)
Lemma digits2_size (p : positive) : digits2_pos p = Pos.size p.
Proof. induction p as [p IH|p IH|]; cbn; by rewrite ?IH. Qed.

Lemma digits_le (m d : Z) : 0 ≤ d → 0 ≤ m < 2 ^ d → Zdigits2 m ≤ d.
Proof.
  intros Hd [H0 Hm]. destruct m as [|p|p]; cbn; [done | | lia].
  rewrite digits2_size. pose proof (Pos.size_le p) as H.
  apply Pos2Z.pos_le_pos in H. rewrite Pos2Z.inj_pow in H.
  change (Z.pos p~0) with (2 * Z.pos p) in H.
  assert (2 ^ Z.pos (Pos.size p) < 2 ^ (d + 1)) as Hlt
    by (rewrite Z.pow_add_r by lia; lia).
  apply Z.pow_lt_mono_r_iff in Hlt; lia.
Qed.

Lemma literal_100000 : literal 100000 = S754_finite false 6871947673600000 (-36).
Proof. reflexivity. Qed.

Lemma literal_1 : literal 1 = S754_finite false 4503599627370496 (-52).
Proof. reflexivity. Qed.

(** The product of a double below 1 with 100000, rounded, is still below
    100000: the largest double below 1 is [1 - 2^-53], and its exact product
    is more than half a unit in the last place away from 100000. *)
Lemma rounded_product_in_range (mx : positive) (ex : Z) :
  ex ≤ -53 → Z.pos mx < 2 ^ 53 →
  ∃ n : Z,
    Math_floor (binary_round_aux prec emax false
                  (Z.pos (mx * 6871947673600000)) (ex + -36) loc_Exact)
    = Finite (inject_Z n)
    ∧ 0 ≤ n < 100000.
Proof.
  intros Hex Hmx. unfold binary_round_aux.
  set (P := Z.pos (mx * 6871947673600000)).
  assert (P = Z.pos mx * 6871947673600000) as HP by reflexivity.
  set (E := ex + -36).
  set (U := 2 ^ (- ex - 53)).
  assert (1 ≤ U) as HU by (unfold U; pose proof (Z.pow_pos_nonneg 2 (- ex - 53)); lia).
  assert (2 ^ (- E) = 2 ^ 89 * U) as HE.
  { unfold U, E. rewrite <- Z.pow_add_r by lia. f_equal. lia. }
  assert (2 ^ (- ex) = 2 ^ 53 * U) as Hk.
  { unfold U. rewrite <- Z.pow_add_r by lia. f_equal. lia. }
  destruct (shr_fexp prec emax P E loc_Exact) as [mrs' e'] eqn:H1.
  apply shr_fexp_exact in H1 as (He' & _ & Hr0 & Hr); [| lia].
  set (M' := round_nearest_even (shr_m mrs') (loc_of_shr_record mrs')) in *.
  assert (Zdigits2 P ≤ - ex + 53) as HdP.
  { apply digits_le; [lia |]. split; [lia |].
    rewrite Z.pow_add_r, Hk by lia. nia. }
  assert (e' ≤ -36) as He'36.
  { rewrite He'. unfold fexp, emin, prec, emax, E. lia. }
  assert (E ≤ e') as HEe' by lia.
  assert (2 ^ (e' - E) ≤ 2 ^ (- ex)) as HT.
  { apply Z.pow_le_mono_r; unfold E in *; lia. }
  assert (2 ^ (- e') * 2 ^ (e' - E) = 2 ^ (- E)) as HVT.
  { rewrite <- Z.pow_add_r by lia. f_equal. lia. }
  assert (0 < 2 ^ (e' - E)) as HT0 by (apply Z.pow_pos_nonneg; lia).
  assert (0 < 2 ^ (- e')) as HV0 by (apply Z.pow_pos_nonneg; lia).
  assert (M' < 100000 * 2 ^ (- e')) as HM'.
  { set (T := 2 ^ (e' - E)) in *. set (V := 2 ^ (- e')) in *.
    assert (2 * M' * T < 2 * (100000 * V) * T); [| nia].
    replace (2 * (100000 * V) * T) with (200000 * (V * T)) by lia.
    rewrite HVT, HE. rewrite Hk in HT. nia. }
  destruct (shr_fexp prec emax M' e' loc_Exact) as [mrs2 e2] eqn:H2.
  apply shr_fexp_exact in H2 as (He2 & Hm2 & _ & _); [| exact Hr0].
  assert (Zdigits2 M' ≤ 17 - e') as HdM.
  { apply digits_le; [lia |]. split; [lia |].
    replace (17 - e') with (17 + - e') by lia. rewrite Z.pow_add_r by lia.
    change (2 ^ 17) with 131072. lia. }
  assert (e2 ≤ -36) as He236.
  { rewrite He2. unfold fexp, emin, prec, emax. lia. }
  assert (e' ≤ e2) as Hee by lia.
  assert (0 < 2 ^ (e2 - e')) as HD0 by (apply Z.pow_pos_nonneg; lia).
  assert (0 < 2 ^ (- e2)) as HV2 by (apply Z.pow_pos_nonneg; lia).
  assert (2 ^ (e2 - e') * 2 ^ (- e2) = 2 ^ (- e')) as HDV.
  { rewrite <- Z.pow_add_r by lia. f_equal. lia. }
  assert (0 ≤ shr_m mrs2 < 100000 * 2 ^ (- e2)) as [Hm0 Hmlt].
  { rewrite Hm2. split; [apply Z.div_pos; lia |].
    apply Z.div_lt_upper_bound; [lia |]. rewrite <- HDV in HM'. lia. }
  destruct (shr_m mrs2) as [|m|m]; [| | lia].
  - exists 0. split; [reflexivity | lia].
  - assert ((e2 <=? emax - prec) = true) as -> by (unfold emax, prec; lia).
    cbn [Math_floor]. assert ((0 <=? e2) = false) as -> by lia.
    eexists. split; [reflexivity |]. split; [apply Z.div_pos; lia |].
    apply Z.div_lt_upper_bound; lia.
Qed.

(** [Math.floor(Math.random() * 100000)] is an integer in [[0, 100000)]. *)
Lemma random_id_in_range (x : double) :
  from_unit_interval x = true →
  ∃ n : Z,
    Math_floor (multiply x (literal 100000)) = Finite (inject_Z n)
    ∧ 0 ≤ n < 100000.
Proof.
  unfold from_unit_interval. rewrite literal_1, literal_100000.
  intros H. apply andb_prop in H as [H Hlt]. apply andb_prop in H as [Hv Hs].
  destruct x as [s|s| |s mx ex]; try done.
  - destruct s; [done |]. exists 0. split; [reflexivity | lia].
  - by destruct s.
  - destruct s; [done |]. cbn [xorb multiply SFmul].
    cbn [valid_binary] in Hv. unfold bounded, canonical_mantissa in Hv.
    apply andb_prop in Hv as [Hc _]. apply Z.eqb_eq in Hc.
    rewrite digits2_size in Hc.
    assert (Z.pos mx < 2 ^ 53) as Hmx.
    { pose proof (Pos.size_gt mx) as Hg. apply Pos2Z.pos_lt_pos in Hg.
      rewrite Pos2Z.inj_pow in Hg.
      assert (2 ^ Z.pos (Pos.size mx) ≤ 2 ^ 53); [| lia].
      apply Z.pow_le_mono_r; [lia |]. unfold fexp, prec in Hc. lia. }
    apply rounded_product_in_range; [| exact Hmx].
    unfold SFltb, SFcompare in Hlt.
    destruct (ex ?= -52) eqn:Hcmp; try done.
    + apply Z.compare_eq in Hcmp. subst ex.
      rewrite Pos.compare_cont_spec in Hlt.
      destruct (mx ?= 4503599627370496)%positive eqn:Hm; try done.
      apply Pos.compare_lt_iff, Pos2Z.pos_lt_pos in Hm.
      assert (Zdigits2 (Z.pos mx) ≤ 52) as Hd
        by (apply digits_le; [lia |]; change (2 ^ 52) with 4503599627370496; lia).
      cbn [Zdigits2] in Hd. rewrite digits2_size in Hd.
      unfold fexp, emin, prec, emax in Hc. lia.
    + change (ex < -52) in Hcmp. lia.
Qed.

End Doubles.

Section Properties.

Context (JSON_parse : string -> exn + jsval)
        (JSON_stringify JSON_stringify_indented : list Shape -> string)
        (Math_random : nat -> double)
        (TypeError_message : fault -> string).

Local Abbreviation createShape := (Backend.createShape Math_random).
Local Abbreviation editExistingShape := (Backend.editExistingShape TypeError_message).
Local Abbreviation invoke := (Backend.invoke Math_random TypeError_message).
Local Abbreviation dispatch :=
  (Backend.dispatch JSON_parse JSON_stringify Math_random TypeError_message).
Local Abbreviation map_calls :=
  (Backend.map_calls JSON_parse JSON_stringify Math_random TypeError_message).
Local Abbreviation loop :=
  (Backend.loop JSON_parse JSON_stringify Math_random TypeError_message).
Local Abbreviation first_fetch :=
  (Backend.first_fetch JSON_parse JSON_stringify Math_random TypeError_message).
Local Abbreviation resume :=
  (Backend.resume JSON_parse JSON_stringify Math_random TypeError_message).
Local Abbreviation addMessageContext := (Backend.addMessageContext JSON_stringify_indented).
Local Abbreviation on_handle_user_prompt :=
  (Backend.on_handle_user_prompt JSON_stringify_indented).
Local Abbreviation on_completion :=
  (Backend.on_completion JSON_parse JSON_stringify Math_random TypeError_message).
Local Abbreviation step :=
  (Backend.step JSON_parse JSON_stringify JSON_stringify_indented Math_random
        TypeError_message).
Local Abbreviation serve :=
  (Backend.serve JSON_parse JSON_stringify JSON_stringify_indented Math_random
         TypeError_message).
Local Abbreviation run :=
  (Backend.run JSON_parse JSON_stringify JSON_stringify_indented Math_random
       TypeError_message).
Local Abbreviation batches :=
  (batches_handed JSON_parse JSON_stringify JSON_stringify_indented Math_random
                  TypeError_message).

(** ** The tool handlers and the shape store *)

Lemma no_shape_has_find (v : jsval) (l : list Shape) :
  no_shape_has v l →
  list_find (λ s, strict_eq (shape_id s) v) l = None.
Proof.
  intros H. apply list_find_None. unfold no_shape_has in H.
  eapply Forall_impl; [| exact H]. intros s Hs. cbn in Hs. rewrite Hs. intros [].
Qed.

(** A handler that throws leaves the store as it found it. *)
Lemma failed_invoke_is_atomic (fn : callee) (functionArgs : jsval)
    (st st' : session) (err : exn) :
  invoke fn functionArgs st = (st', Some err) → st' = st.
Proof.
  destruct fn as [| |m]; cbn.
  - unfold createShape.
    destruct (_ || _); intros H; inversion H; reflexivity.
  - unfold editExistingShape. destruct (shapes st) as [|s0 l] eqn:Hl.
    + intros H; inversion H; reflexivity.
    + destruct (nullish functionArgs).
      * intros H; inversion H; reflexivity.
      * destruct (list_find _ _) as [[i s]|]; intros H; inversion H; reflexivity.
  - intros H; inversion H; reflexivity.
Qed.

(** C5. A failed dispatch leaves the shape store untouched.  [createShape]
    called with an [x], [y], [w] or [h] that is not a finite number, and
    [editExistingShape] called with an id that no shape has, both leave the
    whole store as it was and answer with the text of the caught error:
    [Error: required params were not given] for the first; for the second
    [Error: could not find shape], or the TypeError of reading [id] off a
    null argument. *)
Theorem failed_dispatch_leaves_store (socket : string) (call : ToolCall)
    (functionArgs : jsval) (st : session) :
  JSON_parse (function_arguments call) = inr functionArgs →
  (function_name call = "createShape"
   ∧ Number_isFinite (read functionArgs Fx)
     && Number_isFinite (read functionArgs Fy)
     && Number_isFinite (read functionArgs Fw)
     && Number_isFinite (read functionArgs Fh) = false)
  ∨ (function_name call = "editExistingShape"
     ∧ no_shape_has (read functionArgs Fid) (shapes st)) →
  ∃ err : exn,
    (err = Error "required params were not given"
     ∨ err = Error "could not find shape"
     ∨ err = TypeError (TypeError_message (ReadOfNullish functionArgs Fid)))
    ∧ dispatch socket call st
      = (st, [restarting socket], inr (error_output call err)).
Proof.
  intros Hparse [[Hname Hfin] | [Hname Hnone]]; unfold dispatch;
    rewrite Hparse, Hname; cbn [functions String.eqb Ascii.eqb Bool.eqb invoke].
  - exists (Error "required params were not given"). split; [by left |].
    unfold createShape.
    replace (negb _ || negb _ || negb _ || negb _) with true; [reflexivity |].
    destruct (Number_isFinite (read functionArgs Fx)),
             (Number_isFinite (read functionArgs Fy)),
             (Number_isFinite (read functionArgs Fw)),
             (Number_isFinite (read functionArgs Fh)); done.
  - unfold editExistingShape. destruct (shapes st) as [|s0 l] eqn:Hl.
    + exists (Error "could not find shape"). split; [by right; left | reflexivity].
    + destruct (nullish functionArgs).
      * eexists. split; [by right; right | reflexivity].
      * rewrite (no_shape_has_find _ _ Hnone).
        exists (Error "could not find shape").
        split; [by right; left | reflexivity].
Qed.

(** C6. [createShape] called with finite [x], [y], [w] and [h] appends
    exactly one shape: the collection grows by one, the new shape is its last
    element and carries the given [x], [y], [w] and [h], the given color, or
    [hsl(0, 0%, 0%)] when the color is missing (undefined or null), and an id
    that is an integer in [[0, 100000)].  [Math.random] returns a double in
    [[0, 1)]; the product with 100000 is the rounded product of doubles. *)
Theorem createShape_appends (toolOutput : jsval) (st : session) :
  Number_isFinite (read toolOutput Fx) = true →
  Number_isFinite (read toolOutput Fy) = true →
  Number_isFinite (read toolOutput Fw) = true →
  Number_isFinite (read toolOutput Fh) = true →
  from_unit_interval (Math_random (random_calls st)) = true →
  ∃ (generatedShape : Shape) (n : Z),
    createShape toolOutput st
    = (mkSession (shapes st ++ [generatedShape]) (activeRun st)
                 (S (random_calls st)), None)
    ∧ length (shapes st ++ [generatedShape]) = S (length (shapes st))
    ∧ (∀ f, f ∈ [Fx; Fy; Fw; Fh] → get f generatedShape = read toolOutput f)
    ∧ shape_color generatedShape
      = (if nullish (read toolOutput Fcolor) then VStr "hsl(0, 0%, 0%)"
         else read toolOutput Fcolor)
    ∧ shape_id generatedShape = VNum (Finite (inject_Z n))
    ∧ (0 ≤ n < 100000)%Z.
Proof.
  intros Hx Hy Hw Hh Hr. unfold createShape. rewrite Hx, Hy, Hw, Hh. cbn [negb orb].
  destruct (random_id_in_range _ Hr) as (n & Hn & Hrange). rewrite Hn.
  eexists _, n. split; [reflexivity |]. cbn [shape_color shape_id].
  split; [rewrite length_app; cbn; lia |].
  split.
  { intros f Hf. repeat (apply elem_of_cons in Hf as [-> | Hf]; [reflexivity |]).
    by apply elem_of_nil in Hf. }
  split; [reflexivity |]. split; [reflexivity |]. exact Hrange.
Qed.

(** C7. [editExistingShape] called with the id of an existing shape changes
    that shape only, the first with this id, and on it only the fields among
    [x], [y], [w], [h] and [color] that the call supplies; a field that is
    omitted (or null) keeps its value, and so does the id.  The other shapes,
    the length of the collection and the rest of the store are unchanged. *)
Theorem editExistingShape_frame (toolOutput : jsval) (st : session)
    (i : nat) (editShape : Shape) :
  nullish toolOutput = false →
  first_with_id (read toolOutput Fid) (shapes st) i editShape →
  ∃ (st' : session) (shape' : Shape),
    editExistingShape toolOutput st = (st', None)
    ∧ length (shapes st') = length (shapes st)
    ∧ shapes st' !! i = Some shape'
    ∧ (∀ j, j ≠ i → shapes st' !! j = shapes st !! j)
    ∧ (∀ f, f ≠ Fid →
         get f shape'
         = if nullish (read toolOutput f) then get f editShape
           else read toolOutput f)
    ∧ (∀ f, read toolOutput f = VUndefined → get f shape' = get f editShape)
    ∧ shape_id shape' = shape_id editShape
    ∧ activeRun st' = activeRun st
    ∧ random_calls st' = random_calls st.
Proof.
  intros Hobj Hfind. unfold first_with_id in Hfind.
  pose proof Hfind as Hlook. apply list_find_Some in Hlook as [Hlook _].
  unfold editExistingShape. destruct (shapes st) as [|s0 l] eqn:Hl; [done |].
  rewrite Hobj, Hfind. eexists _, _. split; [reflexivity |]. cbn [shapes set_shapes].
  split; [apply length_insert |].
  split; [apply list_lookup_insert_eq; by eapply lookup_lt_Some |].
  split; [intros j Hj; by apply list_lookup_insert_ne |].
  split; [intros [] Hf; try done; reflexivity |].
  split; [| done].
  intros [] Hf; cbn; unfold coalesce; try rewrite Hf; reflexivity.
Qed.

(** C10. The listener of ['update-shape'].  When no shape has the id of the
    payload, nothing happens: the configuration is unchanged and nothing is
    emitted.  Otherwise the first shape with this id gets the [x], [y], [w]
    and [h] of the payload, whatever they are: a field the payload lacks
    becomes [undefined], where [editExistingShape] would keep the old value.
    Its color and id, the other shapes and the length of the collection are
    unchanged, and the new shape is broadcast. *)
Theorem update_shape_overwrites (socket : string)
    (updatedShape : list (string * jsval)) (c : config) :
  (no_shape_has (read (VObj updatedShape) Fid) (shapes (store c)) →
   on_update_shape socket updatedShape c = c)
  ∧ (∀ (i : nat) (shape : Shape),
       first_with_id (read (VObj updatedShape) Fid) (shapes (store c)) i shape →
       ∃ shape' : Shape,
         on_update_shape socket updatedShape c
         = mkConfig (set_shapes (<[i := shape']> (shapes (store c))) (store c))
                    (tasks c)
                    (log c ++ [BroadcastEmit socket "update-shape" (PShape shape')])
         ∧ (∀ f, f ∈ [Fx; Fy; Fw; Fh] →
              get f shape' = read (VObj updatedShape) f
              ∧ (own_property (field_name f) updatedShape = VUndefined →
                 get f shape' = VUndefined
                 ∧ get f (edited (VObj updatedShape) shape) = get f shape))
         ∧ shape_color shape' = shape_color shape
         ∧ shape_id shape' = shape_id shape
         ∧ length (<[i := shape']> (shapes (store c))) = length (shapes (store c))
         ∧ (∀ j, j ≠ i →
              <[i := shape']> (shapes (store c)) !! j = shapes (store c) !! j)).
Proof.
  split.
  - intros Hnone. unfold on_update_shape.
    by rewrite (no_shape_has_find _ _ Hnone).
  - intros i shape Hfind. unfold first_with_id in Hfind. unfold on_update_shape.
    rewrite Hfind. eexists. split; [reflexivity |].
    split.
    { intros f Hf.
      repeat (apply elem_of_cons in Hf as [-> | Hf];
              [split; [reflexivity |]; intros Ha; cbn in *; unfold coalesce;
               rewrite Ha; done |]).
      by apply elem_of_nil in Hf. }
    split; [reflexivity |]. split; [reflexivity |].
    split; [apply length_insert |].
    intros j Hj. by apply list_lookup_insert_ne.
Qed.

(** ** Answering tool calls *)

Lemma invoke_keeps_handle (fn : callee) (functionArgs : jsval) (st : session) :
  activeRun (invoke fn functionArgs st).1 = activeRun st.
Proof.
  destruct fn as [| |m]; cbn; [| | reflexivity].
  - unfold Backend.createShape. by destruct (_ || _).
  - unfold Backend.editExistingShape. destruct (shapes st); [done |].
    destruct (nullish functionArgs); [done |].
    by destruct (list_find _ _) as [[i found]|].
Qed.

(** Answering one call emits notices only, keeps the run handle, and gives
    the output the identifier of the call. *)
Lemma dispatch_notices (socket : string) (call : ToolCall) (st st' : session)
    (effs : list effect) (r : exn + ToolOutput) :
  dispatch socket call st = (st', effs, r) →
  forallb notice effs = true ∧ activeRun st' = activeRun st
  ∧ ∀ out, r = inr out → tool_call_id out = default EmptyString (call_id call).
Proof.
  unfold Backend.dispatch.
  destruct (JSON_parse (function_arguments call)) as [err|functionArgs].
  { intros H; inversion H; subst. by repeat split. }
  destruct (functions (function_name call)) as [fn|].
  - pose proof (invoke_keeps_handle fn functionArgs st) as Hk.
    destruct (invoke fn functionArgs st) as [st1 [err|]]; cbn in Hk;
      intros H; inversion H; subst; (repeat split; [done.. |]);
      intros out Ho; inversion Ho; reflexivity.
  - intros H; inversion H; subst. repeat split; [done.. |].
    intros out Ho; inversion Ho; reflexivity.
Qed.

(** With an argument text that parses, answering a call never raises:
    whatever the name and the arguments, an output comes back. *)
Lemma dispatch_answers (socket : string) (call : ToolCall) (st : session) :
  parses JSON_parse call →
  ∃ st' effs out, dispatch socket call st = (st', effs, inr out).
Proof.
  intros [v Hv]. unfold Backend.dispatch. rewrite Hv.
  destruct (functions (function_name call)) as [fn|]; [| by eexists _, _, _].
  destruct (invoke fn v st) as [st1 [err|]]; by eexists _, _, _.
Qed.

(** A name that [functions] does not have is answered with the text that
    says so, on an unchanged store. *)
Lemma dispatch_unknown (socket : string) (call : ToolCall) (v : jsval)
    (st : session) :
  JSON_parse (function_arguments call) = inr v →
  functions (function_name call) = None →
  dispatch socket call st
  = (st,
     [ restarting socket;
       ConsoleError "function name did not match accepted function arguments" None ],
     inr {| tool_call_id := default EmptyString (call_id call);
            output := "error: couldnt find function" |}).
Proof. intros Hv Hf. unfold Backend.dispatch. by rewrite Hv, Hf. Qed.

(** A handler that returns is answered with the success text and the
    serialised new collection. *)
Lemma dispatch_success (socket : string) (call : ToolCall) (v : jsval)
    (fn : callee) (st st' : session) :
  JSON_parse (function_arguments call) = inr v →
  functions (function_name call) = Some fn →
  invoke fn v st = (st', None) →
  dispatch socket call st
  = (st', [],
     inr {| tool_call_id := default EmptyString (call_id call);
            output := "Success. New shapes array: " +:+ JSON_stringify (shapes st') |}).
Proof. intros Hv Hf Hi. unfold Backend.dispatch. by rewrite Hv, Hf, Hi. Qed.

(** [functions] has the name of every member of [Object.prototype]: a call
    to [toString] is answered as a success. *)
Lemma dispatch_inherited_toString (socket : string) (call : ToolCall)
    (v : jsval) (st : session) :
  JSON_parse (function_arguments call) = inr v →
  function_name call = "toString" →
  dispatch socket call st
  = (st, [],
     inr {| tool_call_id := default EmptyString (call_id call);
            output := "Success. New shapes array: " +:+ JSON_stringify (shapes st) |}).
Proof. intros Hv Hn. unfold Backend.dispatch. by rewrite Hv, Hn. Qed.

Lemma map_calls_notices (socket : string) (toolCalls : list ToolCall) :
  ∀ (st st' : session) (effs : list effect) (r : exn + list ToolOutput),
    map_calls socket toolCalls st = (st', effs, r) →
    forallb notice effs = true ∧ activeRun st' = activeRun st.
Proof.
  induction toolCalls as [|call rest IH]; intros st st' effs r; cbn.
  { intros H; inversion H; by subst. }
  destruct (dispatch socket call st) as [[st1 effs1] r1] eqn:Hd.
  apply dispatch_notices in Hd as (Hn1 & Hk1 & _).
  destruct r1 as [err|out]; [intros H; inversion H; by subst |].
  destruct (map_calls socket rest st1) as [[st2 effs2] r2] eqn:Hm.
  apply IH in Hm as [Hn2 Hk2].
  destruct r2 as [err|outs]; intros H; inversion H; subst;
    (split; [rewrite forallb_app; by rewrite Hn1, Hn2 | congruence]).
Qed.

(** When every argument text of a batch parses, every call of the batch is
    answered, in the order of the calls. *)
Lemma map_calls_answers_all (socket : string) (toolCalls : list ToolCall) :
  ∀ st : session,
    Forall (parses JSON_parse) toolCalls →
    ∃ st' effs toolOutputs,
      map_calls socket toolCalls st = (st', effs, inr toolOutputs)
      ∧ tool_call_id <$> toolOutputs
        = (λ call, default EmptyString (call_id call)) <$> toolCalls.
Proof.
  induction toolCalls as [|call rest IH]; intros st Hall; cbn.
  { by eexists _, _, _. }
  inversion Hall as [|? ? Hcall Hrest]; subst.
  destruct (dispatch_answers socket call st Hcall) as (st1 & effs1 & out & Hd).
  rewrite Hd. apply dispatch_notices in Hd as (_ & _ & Hid).
  destruct (IH st1 Hrest) as (st2 & effs2 & outs & Hm & Hids). rewrite Hm.
  eexists _, _, _. split; [reflexivity |]. cbn. by rewrite Hids, (Hid out).
Qed.

(** ** The run driver *)

Lemma failed_is_not_pending (s : string) :
  includes failedStatus s = true → includes pendingStatus s = false.
Proof.
  unfold includes, failedStatus, pendingStatus. cbn [existsb].
  rewrite !orb_false_r. intros H.
  apply orb_true_iff in H as [H | H]; [| apply orb_true_iff in H as [H | H]];
    apply String.eqb_eq in H; subst s; reflexivity.
Qed.

Lemma notices_start_no_run (effs : list effect) :
  forallb notice effs = true → runs_created effs = 0.
Proof.
  unfold runs_created. induction effs as [|e effs IH]; [done |]. cbn.
  intros H. apply andb_true_iff in H as [He H].
  destruct e as [? ? ?|? ? ?|? ?|[]]; cbn in *; try done; by apply IH.
Qed.

Lemma runs_created_app (l1 l2 : list effect) :
  runs_created (l1 ++ l2) = runs_created l1 + runs_created l2.
Proof. unfold runs_created. by rewrite List.filter_app, length_app. Qed.

(** The loop asks for no run and never goes back before [runs.create]. *)
Lemma loop_starts_no_run (socket : string) (runResult : Run)
    (st st' : session) (effs : list effect) (n : next) :
  loop socket runResult st = (st', effs, n) →
  runs_created effs = 0 ∧ before_runs_create (mkTask socket n) = false.
Proof.
  unfold Backend.loop.
  destruct (includes pendingStatus (status runResult));
    [| intros H; inversion H; by subst].
  destruct (_ || _); [intros H; inversion H; by subst |].
  destruct (map_calls socket _ st) as [[st1 effs1] r1] eqn:Hm.
  apply map_calls_notices in Hm as [Hn _]. apply notices_start_no_run in Hn.
  destruct r1 as [err|outs].
  - unfold catch. intros H; inversion H; subst.
    by rewrite runs_created_app, Hn.
  - destruct (activeRun st1); intros H; inversion H; subst;
      [by rewrite runs_created_app, Hn | done].
Qed.

Lemma settled_first_not_before (o : outcome) (n : next) (socket : string) :
  before_runs_create (mkTask socket n) = false →
  before_runs_create (mkTask socket (settled_first o n)) = false.
Proof. by destruct n. Qed.

(** Only the completion of [messages.create] asks for a run, once. *)
Lemma resume_starts_at_most_one_run (socket : string) (p : point)
    (res : response) (st st' : session) (effs : list effect) (n : next) :
  resume socket p res st = (st', effs, n) →
  (runs_created effs
   ≤ if before_runs_create (mkTask socket (Suspend p)) then 1 else 0)%nat
  ∧ before_runs_create (mkTask socket n) = false.
Proof.
  destruct p, res as [r|e]; cbn [Backend.resume];
    try (unfold catch; intros H; inversion H; subst; cbn; split; [lia | done]);
    try (intros H; apply loop_starts_no_run in H as [-> ?]; cbn; split; [lia | done]).
  - unfold Backend.first_fetch.
    destruct (includes failedStatus (status r)).
    + destruct (loop socket r (set_activeRun None st)) as [[st1 effs1] n1] eqn:Hl.
      apply loop_starts_no_run in Hl as [Hr Hb].
      intros H; inversion H; subst. cbn [before_runs_create task_next].
      split; [| by apply (settled_first_not_before _ _ socket)].
      change (runs_created (_ :: effs1)) with (runs_created effs1). lia.
    + intros H; apply loop_starts_no_run in H as [-> ?]; cbn; split; [lia | done].
  - destruct (activeRun st).
    + intros H; inversion H; subst; cbn; split; [lia | done].
    + intros H; apply loop_starts_no_run in H as [-> ?]; cbn; split; [lia | done].
Qed.

Lemma waiting_app (l1 l2 : list task) :
  waiting (l1 ++ l2) = waiting l1 + waiting l2.
Proof. unfold waiting. by rewrite List.filter_app, length_app. Qed.

Lemma waiting_insert (l : list task) (i : nat) (t t' : task) :
  l !! i = Some t →
  waiting (<[i := t']> l) + (if before_runs_create t then 1 else 0)
  = waiting l + (if before_runs_create t' then 1 else 0).
Proof.
  revert i. induction l as [|t0 l IH]; intros [|i] Hi; try done; cbn in Hi.
  - inversion Hi; subst. unfold waiting. cbn.
    destruct (before_runs_create t), (before_runs_create t'); cbn; lia.
  - specialize (IH i Hi). unfold waiting in *. cbn.
    destruct (before_runs_create t0); cbn; [f_equal |]; exact IH.
Qed.

Lemma accounted_step (c : config) (e : event) :
  accounted c → accounted (step c e).
Proof.
  unfold accounted. intros Hc.
  destruct e as [socket message|socket shape|socket u|i res]; cbn [Backend.step].
  - unfold Backend.on_handle_user_prompt, handleUserPrompt.
    destruct (activeRun (store c)); cbn [log tasks after_await].
    + rewrite runs_created_app. cbn. lia.
    + rewrite app_nil_r, runs_created_app, waiting_app, length_app. cbn. lia.
  - unfold on_create_shape. cbn [log tasks]. rewrite runs_created_app. cbn. lia.
  - unfold on_update_shape. destruct (list_find _ _) as [[i shape]|]; [| done].
    cbn [log tasks]. rewrite runs_created_app. cbn. lia.
  - unfold Backend.on_completion.
    destruct (tasks c !! i) as [[socket [p| |]]|] eqn:Hi; try done.
    destruct (resume socket p res (store c)) as [[st effs] n] eqn:Hr.
    apply resume_starts_at_most_one_run in Hr as [Hruns Hn]. cbn [log tasks].
    pose proof (waiting_insert _ _ _ (mkTask socket n) Hi) as Hw.
    rewrite Hn in Hw. cbn [before_runs_create task_next] in Hw, Hruns.
    rewrite !runs_created_app, length_insert.
    assert (runs_created (after_await socket n st) = 0) as ->
      by (by destruct n as [|[]|]).
    destruct p; lia.
Qed.

Lemma accounted_run (es : list event) :
  ∀ c : config, accounted c → accounted (run c es).
Proof.
  induction es as [|e es IH]; intros c Hc; [done |]. cbn. apply IH.
  unfold serve. destruct (existsb spinning (tasks c)); [done |].
  by apply accounted_step.
Qed.

(** What the gate does.  The session has one run handle, [activeRun], and
    the listener of ['handle-user-prompt'] looks at nothing else.  After any
    sequence of events: if the handle is set, an arriving instruction changes
    neither the store nor the handlers in flight and calls nothing, it is
    only answered with the snapshot; if the handle is null, the instruction
    always enters [handleUserPrompt], which asks for its run as soon as
    [messages.create] resolves, whatever the store holds by then.  And no
    more runs have ever been asked for than instructions were let in.  The
    handle is set two awaits after the gate, so this does not keep the runs
    apart: see the concrete inputs at the end. *)
Theorem handle_is_the_only_gate (es : list event) (socket message : string) :
  let c := run initial es in
  let c' := step c (HandleUserPrompt socket message) in
  (activeRun (store c) ≠ None →
   store c' = store c
   ∧ tasks c' = tasks c
   ∧ log c' = log c ++ [SocketEmit socket "snapshot" (PShapes (shapes (store c)))])
  ∧ (activeRun (store c) = None →
     store c' = store c
     ∧ tasks c' = tasks c ++ [mkTask socket (Suspend AwaitMessagesCreate)]
     ∧ log c'
       = log c ++ [Call (MessagesCreate (addMessageContext message (shapes (store c))))])
  ∧ (∀ (st : session) (r : Run),
       resume socket AwaitMessagesCreate (Returned r) st
       = (st, [Call RunsCreate], Suspend AwaitRunsCreate))
  ∧ (runs_created (log c') ≤ length (tasks c'))%nat.
Proof.
  cbn zeta. cbn [Backend.step]. repeat split.
  - unfold Backend.on_handle_user_prompt. by destruct (activeRun _).
  - unfold Backend.on_handle_user_prompt. by destruct (activeRun _).
  - unfold Backend.on_handle_user_prompt. by destruct (activeRun _).
  - unfold Backend.on_handle_user_prompt. by rewrite H.
  - unfold Backend.on_handle_user_prompt. by rewrite H.
  - unfold Backend.on_handle_user_prompt. rewrite H. cbn. done.
  - assert (accounted (step (run initial es) (HandleUserPrompt socket message))) as Ha.
    { apply accounted_step, accounted_run. unfold accounted. cbn. lia. }
    unfold accounted in Ha. cbn [Backend.step] in Ha. lia.
Qed.

(** ** Status fetches *)

Lemma loop_resolved (socket : string) (runResult : Run) (st st' : session)
    (effs : list effect) :
  loop socket runResult st = (st', effs, Done Resolved) →
  st' = set_activeRun None st
  ∧ effs = [SocketEmit socket "updates" (PText EmptyString)].
Proof.
  unfold Backend.loop.
  destruct (includes pendingStatus (status runResult));
    [| intros H; inversion H; by subst].
  destruct (_ || _); [done |].
  destruct (map_calls socket _ st) as [[st1 effs1] [err|outs]]; [done |].
  by destruct (activeRun st1).
Qed.

(** The promise resolves only at the end of the loop, after the handle is
    cleared and the empty notification is sent. *)
Lemma resume_resolved (socket : string) (p : point) (res : response)
    (st st' : session) (effs : list effect) :
  resume socket p res st = (st', effs, Done Resolved) →
  st' = set_activeRun None st
  ∧ effs = [SocketEmit socket "updates" (PText EmptyString)].
Proof.
  destruct p, res as [r|e]; cbn [Backend.resume]; try done;
    try apply loop_resolved.
  - unfold Backend.first_fetch. destruct (includes failedStatus (status r));
      [| apply loop_resolved].
    destruct (loop socket r (set_activeRun None st)) as [[st1 effs1] [| |]]; done.
  - destruct (activeRun st); [done | apply loop_resolved].
Qed.

(** A terminal failure status found by the first fetch: the handle is
    cleared, the caller is told the status and the promise is rejected. *)
Lemma first_failure_rejects (socket : string) (runResult : Run) (st : session) :
  includes failedStatus (status runResult) = true →
  resume socket AwaitFirstRetrieve (Returned runResult) st
  = (set_activeRun None st,
     [ SocketEmit socket "updates"
         (PText ("Process failed with status: " +:+ status runResult));
       SocketEmit socket "updates" (PText EmptyString) ],
     Done (Rejected (Some (Error ("run result failed with status: "
                                  +:+ status runResult))))).
Proof.
  intros Hf. cbn. unfold Backend.first_fetch, Backend.loop.
  by rewrite Hf, (failed_is_not_pending _ Hf).
Qed.

(** A terminal failure status found by a later fetch, or returned by a
    submission, ends the loop like a success: the handle is cleared, the
    empty notification is sent and the promise resolves. *)
Lemma late_failure_resolves (socket : string) (p : point) (runResult : Run)
    (st : session) :
  p = AwaitRetrieve ∨ p = AwaitSubmit →
  includes failedStatus (status runResult) = true →
  resume socket p (Returned runResult) st
  = (set_activeRun None st, [SocketEmit socket "updates" (PText EmptyString)],
     Done Resolved).
Proof.
  intros [-> | ->] Hf; cbn; unfold Backend.loop;
    by rewrite (failed_is_not_pending _ Hf).
Qed.

(** Whenever a fetch returns a terminal failure status, the handle is
    cleared and the handler ends: it does not wait for tool outputs. *)
Lemma failure_clears_handle (socket : string) (p : point) (runResult : Run)
    (st st' : session) (effs : list effect) (n : next) :
  fetches p = true →
  includes failedStatus (status runResult) = true →
  resume socket p (Returned runResult) st = (st', effs, n) →
  activeRun st' = None ∧ ∃ o, n = Done o.
Proof.
  intros Hp Hf. destruct p; try done.
  - rewrite (first_failure_rejects _ _ _ Hf). intros H; inversion H; subst. eauto.
  - rewrite (late_failure_resolves _ AwaitRetrieve _ _ (or_introl eq_refl) Hf).
    intros H; inversion H; subst. eauto.
  - rewrite (late_failure_resolves _ AwaitSubmit _ _ (or_intror eq_refl) Hf).
    intros H; inversion H; subst. eauto.
Qed.

(** An error of the service while fetching or submitting is caught, logged
    and signalled by rejecting the promise; the store, and with it the run
    handle, stays as it was. *)
Lemma service_error_keeps_handle (socket : string) (p : point) (e : exn)
    (st : session) :
  fetches p = true →
  resume socket p (Threw e) st
  = (st, [ConsoleError "Error retrieving the run:" (Some e)], Done (Rejected None)).
Proof. by destruct p. Qed.

(** ** Batches of tool calls *)

(** A batch whose argument texts all parse is answered in full and submitted
    at once, under the identifier of the active run. *)
Lemma parsed_batch_is_submitted (socket : string) (runResult : Run)
    (st : session) (active : Run) :
  status runResult = "requires_action" →
  activeRun st = Some active →
  Forall (parses JSON_parse) (default [] (required_action runResult)) →
  ∃ st' effs toolOutputs,
    loop socket runResult st
    = (st', effs ++ [Call (SubmitToolOutputs (run_id active) toolOutputs)],
       Suspend AwaitSubmit)
    ∧ forallb notice effs = true
    ∧ tool_call_id <$> toolOutputs
      = (λ call, default EmptyString (call_id call))
          <$> default [] (required_action runResult)
    ∧ activeRun st' = Some active.
Proof.
  intros Hs Ha Hall. unfold Backend.loop. rewrite Hs. cbn [includes pendingStatus existsb String.eqb Ascii.eqb Bool.eqb orb].
  destruct (map_calls_answers_all socket _ st Hall) as (st' & effs & outs & Hm & Hids).
  rewrite Hm. apply map_calls_notices in Hm as [Hn Hk]. rewrite Hk, Ha.
  eexists _, _, _. split; [reflexivity |]. by rewrite Hk, Ha in *.
Qed.

Lemma notices_submit_nothing (effs : list effect) :
  forallb notice effs = true → submissions effs = 0.
Proof.
  unfold submissions. induction effs as [|e effs IH]; [done |]. cbn.
  intros H. apply andb_true_iff in H as [He H].
  destruct e as [? ? ?|? ? ?|? ?|[]]; cbn in *; try done; by apply IH.
Qed.

Lemma submissions_app (l1 l2 : list effect) :
  submissions (l1 ++ l2) = submissions l1 + submissions l2.
Proof. unfold submissions. by rewrite List.filter_app, length_app. Qed.

Lemma loop_submits_iff_awaited (socket : string) (runResult : Run)
    (st st' : session) (effs : list effect) (n : next) :
  loop socket runResult st = (st', effs, n) →
  submissions effs = match n with Suspend AwaitSubmit => 1 | _ => 0 end.
Proof.
  unfold Backend.loop.
  destruct (includes pendingStatus (status runResult));
    [| intros H; inversion H; by subst].
  destruct (_ || _); [intros H; inversion H; by subst |].
  destruct (map_calls socket _ st) as [[st1 effs1] r1] eqn:Hm.
  apply map_calls_notices in Hm as [Hn _]. apply notices_submit_nothing in Hn.
  destruct r1 as [err|outs].
  - unfold catch. intros H; inversion H; subst.
    by rewrite submissions_app, Hn.
  - destruct (activeRun st1); intros H; inversion H; subst;
      [by rewrite submissions_app, Hn | done].
Qed.

(** A segment of the handler submits tool outputs exactly once when it ends
    awaiting that submission, and not at all otherwise. *)
Lemma submission_iff_awaited (socket : string) (p : point) (res : response)
    (st st' : session) (effs : list effect) (n : next) :
  resume socket p res st = (st', effs, n) →
  submissions effs = match n with Suspend AwaitSubmit => 1 | _ => 0 end.
Proof.
  destruct p, res as [r|e]; cbn [Backend.resume];
    try (unfold catch; intros H; inversion H; by subst);
    try apply loop_submits_iff_awaited.
  - unfold Backend.first_fetch. destruct (includes failedStatus (status r)) eqn:Hf;
      [| apply loop_submits_iff_awaited].
    unfold Backend.loop. rewrite (failed_is_not_pending _ Hf).
    intros H; inversion H; by subst.
  - destruct (activeRun st); [intros H; inversion H; by subst |].
    apply loop_submits_iff_awaited.
Qed.

Lemma requires_action_is_pending (s : string) :
  includes pendingStatus s = true →
  String.eqb s "in_progress" || String.eqb s "queued" = false →
  s = "requires_action".
Proof.
  unfold includes, pendingStatus. cbn [existsb]. rewrite orb_false_r, orb_assoc.
  intros H Hs. rewrite Hs in H. by apply String.eqb_eq.
Qed.

(** The loop of a handler that holds the handle and is given argument texts
    that parse: it never spins, it keeps the handle while it is suspended,
    and it ends awaiting a submission exactly when the run requires action. *)
Lemma loop_alone (socket : string) (runResult : Run) (st st' : session)
    (effs : list effect) (n : next) :
  activeRun st ≠ None →
  Forall (parses JSON_parse) (default [] (required_action runResult)) →
  loop socket runResult st = (st', effs, n) →
  n ≠ Spin
  ∧ (∀ p, n = Suspend p → activeRun st' ≠ None)
  ∧ (n = Suspend AwaitSubmit ↔ status runResult = "requires_action").
Proof.
  intros Ha Hall. unfold Backend.loop.
  destruct (includes pendingStatus (status runResult)) eqn:Hp.
  - destruct (_ || _) eqn:Hs.
    + intros H; inversion H; subst. repeat split; try done.
      intros Hr. rewrite Hr in Hs. done.
    + destruct (map_calls_answers_all socket _ st Hall)
        as (st1 & effs1 & outs & Hm & _).
      rewrite Hm. apply map_calls_notices in Hm as [_ Hk].
      destruct (activeRun st1) as [active|] eqn:H1; [| congruence].
      intros H; inversion H; subst. repeat split; try done.
      * intros p _. congruence.
      * intros _. by apply requires_action_is_pending.
  - intros H; inversion H; subst. repeat split; try done.
    intros Hr. rewrite Hr in Hp. done.
Qed.

Lemma resume_alone (socket : string) (p : point) (res : response)
    (st st' : session) (effs : list effect) (n : next) :
  (in_try p = true → activeRun st ≠ None) →
  well_formed JSON_parse res →
  resume socket p res st = (st', effs, n) →
  n ≠ Spin
  ∧ (∀ p', n = Suspend p' → in_try p' = true → activeRun st' ≠ None)
  ∧ (n = Suspend AwaitSubmit
     ↔ fetches p = true ∧ ∃ r, res = Returned r ∧ status r = "requires_action").
Proof.
  intros Ha Hw.
  assert (∀ r, Forall (parses JSON_parse) (default [] (required_action r)) →
            activeRun st ≠ None → fetches p = true →
            loop socket r st = (st', effs, n) → res = Returned r →
            n ≠ Spin
            ∧ (∀ p', n = Suspend p' → in_try p' = true → activeRun st' ≠ None)
            ∧ (n = Suspend AwaitSubmit
               ↔ fetches p = true
                 ∧ ∃ r, res = Returned r ∧ status r = "requires_action")) as Hloop.
  { intros r Hall Hact Hf H ->.
    apply loop_alone in H as (Hn & Hk & Hb); [| done | done].
    split; [done |]. split; [intros p' Hp' _; by apply (Hk p') |]. split.
    - intros Hs. split; [done |]. exists r. split; [done | by apply Hb].
    - intros (_ & r' & Hr & Hs). inversion Hr; subst r'. by apply Hb. }
  destruct p, res as [r|e]; cbn [Backend.resume in_try fetches well_formed] in *.
  all: try (unfold catch; intros H; inversion H; subst; split; [done |];
            split; [done |]; split; [done |]; by intros (_ & ? & ? & _)).
  all: try (intros H; inversion H; subst; split; [done |];
            split; [by intros ? [= <-] |]; split; [done |]; by intros (? & _)).
  - unfold Backend.first_fetch.
    destruct (includes failedStatus (status r)) eqn:Hf;
      [| intros H; apply (Hloop r); auto].
    unfold Backend.loop. rewrite (failed_is_not_pending _ Hf).
    intros H; inversion H; subst. split; [done |]. split; [done |].
    split; [done |]. intros (_ & r' & Hr & Hs). inversion Hr; subst r'.
    by rewrite Hs in Hf.
  - destruct (activeRun st) as [active|] eqn:H1; [| by destruct Ha].
    intros H; inversion H; subst. split; [done |].
    split; [intros p' _ _; congruence |]. split; [done |]. by intros (? & _).
  - intros H. apply (Hloop r); auto.
  - intros H. apply (Hloop r); auto.
Qed.

Lemma spinning_insert (l : list task) (i : nat) (t : task) :
  existsb spinning l = false → spinning t = false →
  existsb spinning (<[i := t]> l) = false.
Proof.
  revert i. induction l as [|t0 l IH]; intros i Hl Ht; [done |].
  cbn in Hl. apply orb_false_iff in Hl as [H0 Hl].
  destruct i as [|i]; cbn; [by rewrite Ht | by rewrite H0, IH].
Qed.

(** One completion served to a handler that is alone in flight. *)
Lemma serve_alone (i : nat) (c : config) (res : response) :
  existsb spinning (tasks c) = false →
  holds_handle i c →
  well_formed JSON_parse res →
  existsb spinning (tasks (serve c (Completion i res))) = false
  ∧ holds_handle i (serve c (Completion i res))
  ∧ submissions (log (serve c (Completion i res)))
    = submissions (log c) + (if brings_batch i c res then 1 else 0).
Proof.
  intros Hspin Hh Hw. unfold Backend.serve. rewrite Hspin. cbn [Backend.step].
  unfold Backend.on_completion, brings_batch.
  destruct (tasks c !! i) as [[socket [p| |]]|] eqn:Hi;
    try (split; [done |]; split; [done | lia]).
  destruct (resume socket p res (store c)) as [[st effs] n] eqn:Hr.
  pose proof (submission_iff_awaited _ _ _ _ _ _ _ Hr) as Hsub.
  apply resume_alone in Hr as (Hn & Hk & Hb); [| by apply (Hh socket) | done].
  cbn [tasks log store]. split; [| split].
  - apply spinning_insert; [done | by destruct n].
  - unfold holds_handle. cbn [tasks store]. intros socket' p'.
    rewrite list_lookup_insert_eq by (by eapply lookup_lt_Some).
    intros Ht. inversion Ht; subst. by apply Hk.
  - rewrite !submissions_app, Hsub.
    assert (submissions (after_await socket n st) = 0) as ->
      by (by destruct n as [|[]|]).
    destruct res as [r|e].
    + destruct (fetches p && String.eqb (status r) "requires_action") eqn:Hbb.
      * apply andb_true_iff in Hbb as [Hf Hs]. apply String.eqb_eq in Hs.
        assert (n = Suspend AwaitSubmit) as -> by (apply Hb; eauto). lia.
      * assert (n ≠ Suspend AwaitSubmit) as Hne.
        { intros Hn'. apply Hb in Hn' as (Hf & r' & Hr' & Hs).
          inversion Hr'; subst r'. apply String.eqb_eq in Hs.
          by rewrite Hf, Hs in Hbb. }
        destruct n as [[]| |]; try done; lia.
    + assert (n ≠ Suspend AwaitSubmit) as Hne
        by (intros Hn'; by apply Hb in Hn' as (_ & r' & Hr' & _)).
      destruct n as [[]| |]; try done; lia.
Qed.

(** A handler that is alone in flight and is only handed argument texts that
    parse submits tool outputs once for every batch the run hands it, however
    many batches the run goes through. *)
Lemma alone_run_submits_every_batch (i : nat) (answers : list response) :
  ∀ c : config,
    existsb spinning (tasks c) = false →
    holds_handle i c →
    Forall (well_formed JSON_parse) answers →
    submissions (log (run c (Completion i <$> answers)))
    = submissions (log c) + batches i c answers.
Proof.
  induction answers as [|res rest IH]; intros c Hspin Hh Hall; [cbn; lia |].
  inversion Hall as [|? ? Hres Hrest]; subst.
  destruct (serve_alone i c res Hspin Hh Hres) as (Hspin' & Hh' & Hsub).
  cbn [fmap list_fmap Backend.run fold_left batches_handed].
  change (fold_left serve (Completion i <$> rest) (serve c (Completion i res)))
    with (run (serve c (Completion i res)) (Completion i <$> rest)).
  rewrite (IH _ Hspin' Hh' Hrest), Hsub. lia.
Qed.

(** A batch whose first argument text does not parse is not answered at
    all: the exception of [JSON.parse] leaves the map and the loop, nothing
    is submitted and the promise is rejected. *)
Lemma unparsed_batch_is_dropped (socket : string) (runResult : Run)
    (st : session) (call : ToolCall) (rest : list ToolCall) (e : exn) :
  status runResult = "requires_action" →
  required_action runResult = Some (call :: rest) →
  JSON_parse (function_arguments call) = inl e →
  loop socket runResult st
  = (st, [ConsoleError "Error retrieving the run:" (Some e)], Done (Rejected None)).
Proof.
  intros Hs Hr He. unfold Backend.loop. rewrite Hs, Hr.
  cbn [includes pendingStatus existsb String.eqb Ascii.eqb Bool.eqb orb
       default from_option id Backend.map_calls].
  unfold Backend.dispatch. by rewrite He.
Qed.

(** ** The end of a handled instruction *)

Lemma notice_is_no_snapshot (e : effect) : notice e = true → is_snapshot e = false.
Proof.
  destruct e as [s ev q|s ev q|t o|a]; cbn; try done.
  intros H. apply String.eqb_eq in H. by subst.
Qed.

(** C9. When the promise of [handleUserPrompt] resolves, the two last things
    the backend does for this instruction are the empty ['updates']
    notification and then a ['snapshot'] carrying the current collection,
    both emitted on the caller's socket, so to the caller alone; the run
    handle is null by then. *)
Theorem resolved_run_ends_with_snapshot (c : config) (i : nat)
    (socket : string) (p : point) (res : response) :
  tasks c !! i = Some (mkTask socket (Suspend p)) →
  tasks (on_completion i res c) !! i = Some (mkTask socket (Done Resolved)) →
  log (on_completion i res c)
  = log c ++ [ SocketEmit socket "updates" (PText EmptyString);
               SocketEmit socket "snapshot"
                 (PShapes (shapes (store (on_completion i res c)))) ]
  ∧ activeRun (store (on_completion i res c)) = None
  ∧ shapes (store (on_completion i res c)) = shapes (store c).
Proof.
  intros Hi. unfold Backend.on_completion. rewrite Hi.
  destruct (resume socket p res (store c)) as [[st effs] n] eqn:Hr.
  cbn [tasks log store]. rewrite list_lookup_insert_eq by (by eapply lookup_lt_Some).
  intros Hn. inversion Hn; subst n.
  apply resume_resolved in Hr as [-> ->]. done.
Qed.

(** ** Shapes are never removed *)

Lemma edit_keeps_ids (l : list Shape) (i : nat) (shape shape' : Shape) :
  l !! i = Some shape → shape_id shape' = shape_id shape →
  ids (<[i := shape']> l) = ids l.
Proof.
  intros Hi Hid. unfold ids. rewrite list_fmap_insert, Hid.
  apply list_insert_id. by rewrite list_lookup_fmap, Hi.
Qed.

Lemma invoke_ids (fn : callee) (functionArgs : jsval) (st : session) :
  ids (shapes st) `prefix_of` ids (shapes (invoke fn functionArgs st).1).
Proof.
  destruct fn as [| |m]; cbn; [| | reflexivity].
  - unfold Backend.createShape. destruct (_ || _); [reflexivity |].
    cbn. unfold ids. rewrite fmap_app. by apply prefix_app_r.
  - unfold Backend.editExistingShape. destruct (shapes st) as [|s0 l] eqn:Hl.
    { cbn. by rewrite Hl. }
    destruct (nullish functionArgs); [cbn; by rewrite Hl |].
    destruct (list_find _ _) as [[i found]|] eqn:Hf; [| cbn; by rewrite Hl].
    cbn. apply list_find_Some in Hf as (Hi & _).
    by rewrite (edit_keeps_ids _ _ found).
Qed.

Lemma dispatch_ids (socket : string) (call : ToolCall) (st : session) :
  ids (shapes st) `prefix_of` ids (shapes (dispatch socket call st).1.1).
Proof.
  unfold Backend.dispatch.
  destruct (JSON_parse (function_arguments call)) as [err|functionArgs];
    [reflexivity |].
  destruct (functions (function_name call)) as [fn|]; [| reflexivity].
  pose proof (invoke_ids fn functionArgs st) as H.
  by destruct (invoke fn functionArgs st) as [st1 [err|]].
Qed.

Lemma map_calls_ids (socket : string) (toolCalls : list ToolCall) :
  ∀ st : session,
    ids (shapes st) `prefix_of` ids (shapes (map_calls socket toolCalls st).1.1).
Proof.
  induction toolCalls as [|call rest IH]; intros st; cbn; [reflexivity |].
  pose proof (dispatch_ids socket call st) as Hd.
  destruct (dispatch socket call st) as [[st1 effs1] [err|out]]; [done |].
  pose proof (IH st1) as Hm. cbn in Hd.
  destruct (map_calls socket rest st1) as [[st2 effs2] [err|outs]];
    cbn in *; by etrans.
Qed.

Lemma loop_ids (socket : string) (runResult : Run) (st : session) :
  ids (shapes st) `prefix_of` ids (shapes (loop socket runResult st).1.1).
Proof.
  unfold Backend.loop.
  destruct (includes pendingStatus (status runResult)); [| reflexivity].
  destruct (_ || _); [reflexivity |].
  pose proof (map_calls_ids socket (default [] (required_action runResult)) st) as H.
  destruct (map_calls socket _ st) as [[st1 effs1] [err|outs]]; [done |].
  by destruct (activeRun st1).
Qed.

Lemma resume_ids (socket : string) (p : point) (res : response) (st : session) :
  ids (shapes st) `prefix_of` ids (shapes (resume socket p res st).1.1).
Proof.
  destruct p, res as [r|e]; cbn [Backend.resume];
    try reflexivity; try apply loop_ids.
  - unfold Backend.first_fetch. destruct (includes failedStatus (status r));
      [| apply loop_ids].
    pose proof (loop_ids socket r (set_activeRun None st)) as H.
    by destruct (loop socket r (set_activeRun None st)) as [[st1 effs1] n].
  - destruct (activeRun st); [reflexivity | apply loop_ids].
Qed.

Lemma step_ids (c : config) (e : event) :
  ids (shapes (store c)) `prefix_of` ids (shapes (store (step c e))).
Proof.
  destruct e as [socket message|socket shape|socket u|i res]; cbn [Backend.step].
  - unfold Backend.on_handle_user_prompt. by destruct (activeRun (store c)).
  - cbn. unfold ids. rewrite fmap_app. by apply prefix_app_r.
  - unfold on_update_shape.
    destruct (list_find _ _) as [[i shape]|] eqn:Hf; [| reflexivity].
    cbn. apply list_find_Some in Hf as (Hi & _).
    by rewrite (edit_keeps_ids _ _ shape).
  - unfold Backend.on_completion.
    destruct (tasks c !! i) as [[socket [p| |]]|]; try reflexivity.
    pose proof (resume_ids socket p res (store c)) as H.
    by destruct (resume socket p res (store c)) as [[st effs] n].
Qed.

(** X1. Nothing the backend does removes a shape, reorders the collection or
    changes an id: over any sequence of socket events and completions, from
    any configuration, the ids of the collection before are the first ids of
    the collection after, in the same order. *)
Theorem shapes_are_never_removed (es : list event) :
  ∀ c : config,
    ids (shapes (store c)) `prefix_of` ids (shapes (store (run c es))).
Proof.
  induction es as [|e es IH]; intros c; [reflexivity |]. cbn.
  etrans; [| apply IH]. unfold Backend.serve.
  destruct (existsb spinning (tasks c)); [reflexivity | apply step_ids].
Qed.

(** ** What answering tool calls is confined to *)

Lemma handlers_throw_errors (fn : callee) (functionArgs : jsval)
    (st st' : session) (err : exn) :
  invoke fn functionArgs st = (st', Some err) → instanceof_Error err = true.
Proof.
  destruct fn as [| |m]; cbn.
  - unfold Backend.createShape. destruct (_ || _); intros H; by inversion H.
  - unfold Backend.editExistingShape. destruct (shapes st); [intros H; by inversion H |].
    destruct (nullish functionArgs); [intros H; by inversion H |].
    destruct (list_find _ _) as [[i found]|]; intros H; by inversion H.
  - intros H. inversion H as [[Hst Hc]]. clear H Hst.
    destruct m; cbn in Hc; try (by inversion Hc);
      destruct functionArgs; by inversion Hc.
Qed.

Lemma dispatch_confined (socket : string) (call : ToolCall) (st : session) :
  activeRun (dispatch socket call st).1.1 = activeRun st
  ∧ Forall (λ e, e = restarting socket ∨ e = unknown_function_logged)
           (dispatch socket call st).1.2.
Proof.
  unfold Backend.dispatch.
  destruct (JSON_parse (function_arguments call)) as [err|functionArgs]; [by split |].
  destruct (functions (function_name call)) as [fn|].
  - pose proof (invoke_keeps_handle fn functionArgs st) as Hk.
    destruct (invoke fn functionArgs st) as [st1 [err|]]; cbn in *;
      (split; [done |]); repeat constructor.
  - cbn. split; [done |]. repeat constructor; by right.
Qed.

Lemma map_calls_confined (socket : string) (toolCalls : list ToolCall) :
  ∀ st : session,
    activeRun (map_calls socket toolCalls st).1.1 = activeRun st
    ∧ Forall (λ e, e = restarting socket ∨ e = unknown_function_logged)
             (map_calls socket toolCalls st).1.2.
Proof.
  induction toolCalls as [|call rest IH]; intros st; cbn; [by split |].
  destruct (dispatch_confined socket call st) as [Hk1 Hn1].
  destruct (dispatch socket call st) as [[st1 effs1] [err|out]]; [by split |].
  destruct (IH st1) as [Hk2 Hn2]. cbn in Hk1, Hn1.
  destruct (map_calls socket rest st1) as [[st2 effs2] [err|outs]]; cbn in *;
    (split; [congruence | by apply Forall_app]).
Qed.

Lemma confined_effects_are_quiet (socket : string) (effs : list effect) :
  Forall (λ e, e = restarting socket ∨ e = unknown_function_logged) effs →
  calls effs = [] ∧ snapshots effs = [].
Proof.
  induction 1 as [|e effs [-> | ->] _ [IH1 IH2]]; cbn; by rewrite ?IH1, ?IH2.
Qed.

(** X2. Answering a batch of tool calls is confined to the shape store and
    to notices: whatever the calls, it leaves the run handle as it was, and
    everything it emits is the ['updates'] notice
    [Process encountered errors, restarting...] on the caller's socket or
    the console message about an unknown function; it calls nothing of the
    service and sends no snapshot. *)
Theorem answering_calls_is_confined (socket : string)
    (toolCalls : list ToolCall) (st : session) :
  activeRun (map_calls socket toolCalls st).1.1 = activeRun st
  ∧ Forall (λ e, e = restarting socket ∨ e = unknown_function_logged)
           (map_calls socket toolCalls st).1.2
  ∧ calls (map_calls socket toolCalls st).1.2 = []
  ∧ snapshots (map_calls socket toolCalls st).1.2 = [].
Proof.
  destruct (map_calls_confined socket toolCalls st) as [Hk Hn].
  destruct (confined_effects_are_quiet _ _ Hn) as [Hc Hs]. done.
Qed.

(** X3. A tool call whose argument text parses is always answered, whatever
    its function name and whatever the store: the callback returns an output
    under the identifier of the call (the empty string when the call has
    none).  An exception thrown by what was called is an Error, so the output
    is then its text and never [unknown error occured]. *)
Theorem parsed_call_is_answered (socket : string) (call : ToolCall)
    (st : session) :
  parses JSON_parse call →
  ∃ (st' : session) (effs : list effect) (out : ToolOutput),
    dispatch socket call st = (st', effs, inr out)
    ∧ tool_call_id out = default EmptyString (call_id call)
    ∧ (output out = "error: couldnt find function"
       ∨ output out = "Success. New shapes array: " +:+ JSON_stringify (shapes st')
       ∨ ∃ err, instanceof_Error err = true ∧ output out = Error_toString err ∧ st' = st).
Proof.
  intros [v Hv]. unfold Backend.dispatch. rewrite Hv.
  destruct (functions (function_name call)) as [fn|].
  - destruct (invoke fn v st) as [st1 [err|]] eqn:Hi.
    + pose proof (handlers_throw_errors _ _ _ _ _ Hi) as He.
      pose proof (failed_invoke_is_atomic _ _ _ _ _ Hi) as ->.
      eexists _, _, _. split; [reflexivity |]. split; [reflexivity |].
      right; right. exists err. by rewrite He.
    + eexists _, _, _. split; [reflexivity |]. split; [reflexivity |].
      right; by left.
  - eexists _, _, _. split; [reflexivity |]. split; [reflexivity |]. by left.
Qed.

(** X4. Answering a batch is answering its first calls and then the rest on
    the store they left, with the effects and outputs in that order.  An
    exception among the first calls ends the whole batch there: the calls
    answered before it have already changed the store, and the rest is not
    looked at. *)
Theorem answering_calls_composes (socket : string) (first rest : list ToolCall) :
  ∀ st : session,
    map_calls socket (first ++ rest) st
    = match map_calls socket first st with
      | (st1, effs1, inl err) => (st1, effs1, inl err)
      | (st1, effs1, inr outs1) =>
        match map_calls socket rest st1 with
        | (st2, effs2, inl err) => (st2, effs1 ++ effs2, inl err)
        | (st2, effs2, inr outs2) => (st2, effs1 ++ effs2, inr (outs1 ++ outs2))
        end
      end.
Proof.
  induction first as [|call first IH]; intros st; cbn.
  - by destruct (map_calls socket rest st) as [[st2 effs2] [err|outs2]].
  - destruct (dispatch socket call st) as [[st0 effs0] [err|out]]; [done |].
    rewrite IH.
    destruct (map_calls socket first st0) as [[st1 effs1] [err|outs1]]; [done |].
    destruct (map_calls socket rest st1) as [[st2 effs2] [err|outs2]];
      by rewrite app_assoc.
Qed.

(** ** Whole runs of one handler *)

(** X5. A handler that is the only one in flight and is only handed argument
    texts that parse submits tool outputs exactly once for every batch the
    run hands it: after any number of completions, the submissions in the log
    have grown by the number of batches. *)
Theorem every_batch_is_submitted_once (i : nat) (answers : list response)
    (c : config) :
  existsb spinning (tasks c) = false →
  holds_handle i c →
  Forall (well_formed JSON_parse) answers →
  submissions (log (run c (Completion i <$> answers)))
  = submissions (log c) + batches i c answers.
Proof. apply alone_run_submits_every_batch. Qed.

Lemma still_running_is_pending (r : Run) :
  still_running r = true → includes pendingStatus (status r) = true.
Proof.
  unfold still_running, includes, pendingStatus. cbn [existsb].
  intros H. apply orb_true_iff in H as [-> | ->]; [done | by rewrite orb_true_r].
Qed.

Lemma poll_round_effect (i : nat) (r : Run) (c : config) (socket : string)
    (active : Run) :
  tasks c !! i = Some (mkTask socket (Suspend AwaitRetrieve)) →
  activeRun (store c) = Some active →
  existsb spinning (tasks c) = false →
  still_running r = true →
  serve (serve c (Completion i (Returned r))) (Completion i (Returned r))
  = mkConfig (store c) (tasks c) (log c ++ polling_effects socket active [r]).
Proof.
  intros Hi Ha Hspin Hr.
  assert (i < length (tasks c)) as Hlen by (by eapply lookup_lt_Some).
  unfold Backend.serve at 2. rewrite Hspin. cbn [Backend.step].
  unfold Backend.on_completion at 1. rewrite Hi. cbn [Backend.resume].
  unfold Backend.loop. rewrite (still_running_is_pending _ Hr).
  unfold still_running in Hr. rewrite Hr. cbn [after_await].
  unfold Backend.serve. cbn [tasks].
  rewrite spinning_insert by done. cbn [Backend.step].
  unfold Backend.on_completion. cbn [tasks store log].
  rewrite list_lookup_insert_eq by done. cbn [Backend.resume]. rewrite Ha.
  cbn [after_await]. f_equal.
  - rewrite list_insert_insert_eq. by apply list_insert_id.
  - unfold polling_effects. cbn. rewrite ?app_nil_r, <- ?app_assoc. done.
Qed.

(** X6. Polling has no bound.  While the status fetches keep returning
    [queued] or [in_progress], the handler goes on: each round emits the
    progress notice, sleeps one second and fetches the status again, and
    after any number of rounds the store and the handlers are as they were,
    the handler still awaiting a status. *)
Theorem polling_goes_on (i : nat) (socket : string) (active : Run)
    (rs : list Run) :
  ∀ c : config,
    tasks c !! i = Some (mkTask socket (Suspend AwaitRetrieve)) →
    activeRun (store c) = Some active →
    existsb spinning (tasks c) = false →
    Forall (λ r, still_running r = true) rs →
    run c (polling i rs)
    = mkConfig (store c) (tasks c) (log c ++ polling_effects socket active rs).
Proof.
  induction rs as [|r rs IH]; intros c Hi Ha Hspin Hall.
  { cbn. rewrite app_nil_r. by destruct c. }
  inversion Hall as [|? ? Hr Hrest]; subst.
  unfold polling. cbn [fmap list_fmap concat app Backend.run fold_left].
  rewrite (poll_round_effect i r c socket active Hi Ha Hspin Hr).
  change (fold_left serve ?es ?c0) with (run c0 es).
  change (concat ((λ r0, [Completion i (Returned r0); Completion i (Returned r0)])
                    <$> rs)) with (polling i rs).
  rewrite IH by done. cbn [store tasks log]. f_equal.
  unfold polling_effects. cbn. rewrite ?app_nil_r, <- ?app_assoc. done.
Qed.

(** X7. A status fetch that returns [cancelled], [failed] or [expired] ends
    the handler at once, whichever fetch it is: the run handle is cleared,
    the shapes are untouched and nothing is asked of the service.  At the
    first fetch the caller is told the status and the promise is rejected; at
    a later fetch, or after a submission, the promise resolves.  In both
    cases the last thing emitted is the empty ['updates'] notification. *)
Theorem failure_status_ends_the_handler (socket : string) (p : point)
    (runResult : Run) (st : session) :
  fetches p = true →
  includes failedStatus (status runResult) = true →
  resume socket p (Returned runResult) st
  = (set_activeRun None st,
     match p with
     | AwaitFirstRetrieve =>
       [ SocketEmit socket "updates"
           (PText ("Process failed with status: " +:+ status runResult)) ]
     | _ => []
     end ++ [SocketEmit socket "updates" (PText EmptyString)],
     Done match p with
          | AwaitFirstRetrieve =>
            Rejected (Some (Error ("run result failed with status: "
                                   +:+ status runResult)))
          | _ => Resolved
          end).
Proof.
  intros Hp Hf. destruct p; try done.
  - by rewrite (first_failure_rejects _ _ _ Hf).
  - by rewrite (late_failure_resolves _ AwaitRetrieve _ _ (or_introl eq_refl) Hf).
  - by rewrite (late_failure_resolves _ AwaitSubmit _ _ (or_intror eq_refl) Hf).
Qed.

(** ** Snapshots *)

Lemma snapshots_app (l1 l2 : list effect) :
  snapshots (l1 ++ l2) = snapshots l1 ++ snapshots l2.
Proof. unfold snapshots. apply List.filter_app. Qed.

Lemma loop_sends_no_snapshot (socket : string) (runResult : Run) (st : session) :
  snapshots (loop socket runResult st).1.2 = [].
Proof.
  unfold Backend.loop.
  destruct (includes pendingStatus (status runResult)); [| done].
  destruct (_ || _); [done |].
  destruct (map_calls_confined socket
              (default [] (required_action runResult)) st) as [_ Hn].
  apply confined_effects_are_quiet in Hn as [_ Hs].
  destruct (map_calls socket _ st) as [[st1 effs1] [err|outs]];
    cbn [fst snd] in Hs |- *.
  - unfold catch. cbn [fst snd]. by rewrite snapshots_app, Hs.
  - destruct (activeRun st1); cbn [fst snd]; [by rewrite snapshots_app, Hs | done].
Qed.

Lemma resume_sends_no_snapshot (socket : string) (p : point) (res : response)
    (st : session) :
  snapshots (resume socket p res st).1.2 = [].
Proof.
  destruct p, res as [r|e]; cbn [Backend.resume]; try done;
    try apply loop_sends_no_snapshot.
  - unfold Backend.first_fetch. destruct (includes failedStatus (status r));
      [| apply loop_sends_no_snapshot].
    pose proof (loop_sends_no_snapshot socket r (set_activeRun None st)) as H.
    destruct (loop socket r (set_activeRun None st)) as [[st1 effs1] n].
    cbn [fst snd] in *. change (snapshots (?e :: effs1)) with (snapshots effs1).
    done.
  - destruct (activeRun st); [done | apply loop_sends_no_snapshot].
Qed.

(** X9. The snapshot that answers an instruction is sent by the listener
    when the promise of [handleUserPrompt] resolves, and only then: the
    completion of an awaited call adds exactly one snapshot to the log, of
    the collection as it then is and on the caller's socket, if it makes the
    handler's promise resolve, and none if the handler goes on, if its
    promise is rejected or if it is abandoned. *)
Theorem snapshot_only_when_resolved (i : nat) (res : response) (c : config) :
  snapshots (log (on_completion i res c))
  = snapshots (log c)
    ++ match tasks c !! i, tasks (on_completion i res c) !! i with
       | Some (mkTask socket (Suspend _)), Some (mkTask _ (Done Resolved)) =>
         [ SocketEmit socket "snapshot"
             (PShapes (shapes (store (on_completion i res c)))) ]
       | _, _ => []
       end.
Proof.
  unfold Backend.on_completion.
  destruct (tasks c !! i) as [[socket [p| |]]|] eqn:Hi;
    rewrite ?Hi; try (by rewrite app_nil_r).
  pose proof (resume_sends_no_snapshot socket p res (store c)) as Hs.
  destruct (resume socket p res (store c)) as [[st effs] n].
  cbn [fst snd log tasks store] in *.
  rewrite list_lookup_insert_eq by (by eapply lookup_lt_Some).
  rewrite !snapshots_app, Hs. by destruct n as [|[]|].
Qed.

(** ** Presence *)

Lemma entered_for_users (socket : string) (l : list user) :
  entered_for socket
    ((λ u, Reliable (SocketEmit socket "user-entered" (PText (user_id u)))) <$> l)
  = user_id <$> l.
Proof.
  induction l as [|u l IH]; [done |].
  cbn [fmap list_fmap]. cbn [entered_for]. rewrite String.eqb_refl.
  f_equal. exact IH.
Qed.

(** X10. A client that connects is first sent the snapshot of the current
    collection, and then one ['user-entered'] for every client connected
    before it, in the order they connected, and a last one for itself; the
    others are sent its id once, by broadcast.  It is added to [users] as the
    newest user. *)
Theorem newcomer_is_told_of_everyone (socket : string) (s : server) :
  ∃ rest : list emitted,
    (on_connection socket s).2
    = [ ConsoleLog "New user connected:" socket;
        Reliable (SocketEmit socket "snapshot" (PShapes (shapes (store (backend s)))));
        Reliable (BroadcastEmit socket "user-entered" (PText socket)) ] ++ rest
    ∧ entered_for socket rest = (user_id <$> users s) ++ [socket]
    ∧ length rest = S (length (users s))
    ∧ users (on_connection socket s).1 = users s ++ [mkUser (connections s) socket]
    ∧ backend (on_connection socket s).1 = backend s.
Proof.
  eexists. split; [reflexivity |]. split.
  { rewrite entered_for_users, fmap_app. reflexivity. }
  split; [| done]. by rewrite length_fmap, length_app, Nat.add_1_r.
Qed.

Lemma filter_keeps_older (k : nat) (l : list user) :
  Forall (λ u, user_ref u < k) l →
  List.filter (λ u, negb (Nat.eqb (user_ref u) k)) l = l.
Proof.
  induction 1 as [|u l Hu _ IH]; [done |]. cbn [List.filter].
  assert (Nat.eqb (user_ref u) k = false) as -> by (apply Nat.eqb_neq; lia).
  cbn [negb]. by rewrite IH.
Qed.

Lemma disconnect_keeps_distinct (u : user) (s : server) :
  distinct_refs s → distinct_refs (on_disconnect u s).1.
Proof.
  intros [Hnd Hlt]. unfold distinct_refs. cbn [on_disconnect fst users connections].
  induction (users s) as [|v l IH]; [done |].
  cbn in Hnd. inversion Hnd as [|? ? Hv Hnd']; subst.
  inversion Hlt as [|? ? Hvk Hlt']; subst.
  destruct (IH Hnd' Hlt') as [IH1 IH2]. cbn.
  destruct (negb (Nat.eqb (user_ref v) (user_ref u))); [| done].
  split; [| by constructor]. cbn. constructor; [| done].
  intros Hin. apply Hv. apply list_elem_of_fmap in Hin as (w & Hw & Hin).
  apply list_elem_of_fmap. exists w. split; [done |].
  apply list_elem_of_In in Hin. apply List.filter_In in Hin as [Hin _].
  by apply list_elem_of_In.
Qed.

(** X11. The references that tell the users apart stay distinct under
    connections and disconnections, and a disconnection undoes the
    connection that made the user: after a client has connected and
    disconnected, [users] is what it was, whoever was connected. *)
Theorem disconnect_undoes_connection (socket : string) (s : server) :
  distinct_refs s →
  distinct_refs (on_connection socket s).1
  ∧ (∀ u, distinct_refs (on_disconnect u (on_connection socket s).1).1)
  ∧ users (on_disconnect (mkUser (connections s) socket)
             (on_connection socket s).1).1
    = users s.
Proof.
  intros [Hnd Hlt].
  assert (distinct_refs (on_connection socket s).1) as Hc.
  { unfold distinct_refs. cbn [on_connection fst users connections]. split.
    - rewrite fmap_app. apply list.NoDup_app. split; [done |]. split.
      + intros k Hk Hk'. cbn in Hk'. apply list_elem_of_singleton in Hk'. subst k.
        apply list_elem_of_fmap in Hk as (w & Hw & Hin).
        rewrite Forall_forall in Hlt. apply list_elem_of_In, Hlt in Hin.
        cbn in Hw. lia.
      + cbn. apply NoDup_singleton.
    - apply Forall_app. split.
      + eapply Forall_impl; [| exact Hlt]. cbn. lia.
      + repeat constructor. }
  split; [exact Hc |]. split; [intros u; by apply disconnect_keeps_distinct |].
  cbn [on_connection on_disconnect fst users user_ref].
  rewrite List.filter_app, (filter_keeps_older _ _ Hlt). cbn.
  rewrite Nat.eqb_refl. cbn. by rewrite app_nil_r.
Qed.

(** ** Reaching a shape by its id *)

Lemma find_in_appended (v : jsval) (l : list Shape) (shape : Shape) :
  no_shape_has v l → strict_eq (shape_id shape) v = true →
  first_with_id v (l ++ [shape]) (length l) shape.
Proof.
  intros Hnone Hs. unfold first_with_id.
  rewrite list_find_app_r by (by apply no_shape_has_find).
  cbn. rewrite decide_True by (by rewrite Hs). cbn. done.
Qed.

Lemma never_equal_to_anything (a : jsval) :
  strict_eq a a = false → ∀ b, strict_eq a b = false.
Proof.
  destruct a as [| |x|[|x|q]|x|x|x]; cbn; try done.
  - by rewrite Bool.eqb_reflx.
  - by rewrite Bool.eqb_reflx.
  - intros H. exfalso. assert (Qeq_bool q q = true) as Hq
      by (apply Qeq_bool_iff; reflexivity). congruence.
  - by rewrite String.eqb_refl.
Qed.

(** X12. A shape sent with ['create-shape'] is put at the end of the
    collection as it is, unchecked.  If its id is equal to itself under [===]
    and no older shape has this id, a following ['update-shape'] with the id
    reaches it and replaces its [x], [y], [w] and [h].  If its id is not
    equal to itself (NaN, an object, an array), no ['update-shape'] can
    reach it. *)
Theorem created_shape_can_be_updated (socket socket' : string) (shape : Shape)
    (updatedShape : list (string * jsval)) (c : config) :
  (strict_eq (shape_id shape) (shape_id shape) = true →
   no_shape_has (shape_id shape) (shapes (store c)) →
   read (VObj updatedShape) Fid = shape_id shape →
   shapes (store (on_update_shape socket' updatedShape
                    (on_create_shape socket shape c)))
   = shapes (store c)
     ++ [ mkShape (read (VObj updatedShape) Fx) (read (VObj updatedShape) Fy)
                  (read (VObj updatedShape) Fw) (read (VObj updatedShape) Fh)
                  (shape_color shape) (shape_id shape) ])
  ∧ (strict_eq (shape_id shape) (shape_id shape) = false →
     no_shape_has (read (VObj updatedShape) Fid) (shapes (store c)) →
     on_update_shape socket' updatedShape (on_create_shape socket shape c)
     = on_create_shape socket shape c).
Proof.
  split.
  - intros Hself Hnone Hid. unfold on_update_shape.
    cbn [on_create_shape store shapes set_shapes]. rewrite Hid.
    pose proof (find_in_appended _ _ shape Hnone Hself) as Hf.
    unfold first_with_id in Hf. rewrite Hf. cbn [store shapes set_shapes].
    replace (length (shapes (store c))) with (length (shapes (store c)) + 0) by lia.
    by rewrite insert_app_r.
  - intros Hself Hnone. unfold on_update_shape.
    cbn [on_create_shape store shapes set_shapes].
    rewrite no_shape_has_find; [done |].
    apply Forall_app. split; [done |]. repeat constructor.
    by apply never_equal_to_anything.
Qed.

(** X13. Ids are not checked for collisions, and a lookup by id stops at the
    oldest shape that has it.  After [createShape] has added a shape,
    whatever id it drew, [editExistingShape] with an id that an older shape
    has edits that older shape and leaves the new one as it was created. *)
Theorem older_shape_shadows_the_new_one (toolOutput edit : jsval)
    (st : session) (i : nat) (old : Shape) :
  (createShape toolOutput st).2 = None →
  nullish edit = false →
  first_with_id (read edit Fid) (shapes st) i old →
  ∃ generatedShape : Shape,
    shapes (createShape toolOutput st).1 = shapes st ++ [generatedShape]
    ∧ (editExistingShape edit (createShape toolOutput st).1).2 = None
    ∧ shapes (editExistingShape edit (createShape toolOutput st).1).1
      = <[i := edited edit old]> (shapes st) ++ [generatedShape].
Proof.
  intros Hok Hobj Hfind. unfold Backend.createShape in *.
  destruct (_ || _); [done |]. cbn [fst snd shapes] in *.
  eexists. split; [reflexivity |].
  unfold first_with_id in Hfind.
  pose proof Hfind as Hi. apply list_find_Some in Hi as [Hi _].
  apply lookup_lt_Some in Hi.
  unfold Backend.editExistingShape. cbn [shapes].
  destruct (shapes st ++ _) as [|s0 l0] eqn:Hl.
  { by apply app_eq_nil in Hl as [_ ?]. }
  rewrite <- Hl, Hobj. erewrite list_find_app_l by exact Hfind.
  cbn [fst snd shapes set_shapes]. split; [done |]. by rewrite insert_app_l.
Qed.

Lemma coalesce_twice (a b : jsval) : coalesce a (coalesce a b) = coalesce a b.
Proof. unfold coalesce. by destruct (nullish a). Qed.

Lemma find_after_edit (v : jsval) (l : list Shape) (i : nat)
    (shape shape' : Shape) :
  first_with_id v l i shape → shape_id shape' = shape_id shape →
  first_with_id v (<[i := shape']> l) i shape'.
Proof.
  unfold first_with_id. intros Hf Hid.
  apply list_find_Some in Hf as (Hi & Hp & Hmin). apply list_find_Some.
  split; [apply list_lookup_insert_eq; by eapply lookup_lt_Some |].
  split; [by rewrite Hid |].
  intros j y Hj Hlt. rewrite list_lookup_insert_ne in Hj by lia. by eapply Hmin.
Qed.

(** X14. Editing is idempotent.  [editExistingShape] called a second time
    with the same arguments changes nothing more and answers the same; and a
    second ['update-shape'] with the same payload leaves the store as the
    first left it. *)
Theorem editing_twice_is_editing_once (toolOutput : jsval) (st : session)
    (socket : string) (updatedShape : list (string * jsval)) (c : config) :
  editExistingShape toolOutput (editExistingShape toolOutput st).1
  = editExistingShape toolOutput st
  ∧ store (on_update_shape socket updatedShape
             (on_update_shape socket updatedShape c))
    = store (on_update_shape socket updatedShape c).
Proof.
  split.
  - unfold Backend.editExistingShape at 2 3.
    destruct (shapes st) as [|s0 l] eqn:Hl.
    { cbn [fst]. unfold Backend.editExistingShape. by rewrite Hl. }
    destruct (nullish toolOutput) eqn:Hn.
    { cbn [fst]. unfold Backend.editExistingShape. by rewrite Hl, Hn. }
    destruct (list_find _ _) as [[i found]|] eqn:Hf.
    + cbn [fst]. rewrite <- Hl in *.
      pose proof (find_after_edit _ _ _ _ (edited toolOutput found) Hf eq_refl) as Hf'.
      unfold first_with_id in Hf'. unfold Backend.editExistingShape.
      cbn [shapes set_shapes].
      destruct (<[i := edited toolOutput found]> (shapes st)) as [|s1 l1] eqn:Hl1.
      { apply (f_equal length) in Hl1. rewrite length_insert, Hl in Hl1. done. }
      rewrite Hn, Hf', <- Hl1. unfold set_shapes. cbn [shapes activeRun random_calls].
      rewrite list_insert_insert_eq. do 3 f_equal.
      unfold edited. cbn. by rewrite !coalesce_twice.
    + cbn [fst]. unfold Backend.editExistingShape. by rewrite Hl, Hn, Hf.
  - unfold on_update_shape at 2 3.
    destruct (list_find _ _) as [[i found]|] eqn:Hf.
    + pose proof (find_after_edit _ _ _ _
                    (mkShape (read (VObj updatedShape) Fx)
                             (read (VObj updatedShape) Fy)
                             (read (VObj updatedShape) Fw)
                             (read (VObj updatedShape) Fh)
                             (shape_color found) (shape_id found))
                    Hf eq_refl) as Hf'.
      unfold first_with_id in Hf'. cbn [store]. unfold on_update_shape.
      cbn [store shapes set_shapes]. rewrite Hf'. cbn [store].
      unfold set_shapes. cbn [shapes activeRun random_calls shape_color shape_id].
      by rewrite list_insert_insert_eq.
    + unfold on_update_shape. by rewrite Hf.
Qed.

(** ** The tools described to the assistant *)

(** X15. The description of the tools agrees with the handlers.  Every tool
    described is an own function of [functions], every parameter it requires
    is one of those it describes, and the parameters [createShape] requires
    are the ones its handler checks: on an argument object the handler goes
    through exactly when every required parameter is a finite number. *)
Theorem described_tools_are_handled (t : tool_schema) :
  t ∈ getWhiteboardTools →
  (functions (tool_name t) = Some Own_createShape
   ∨ functions (tool_name t) = Some Own_editExistingShape)
  ∧ tool_required t ⊆ property_name <$> tool_properties t
  ∧ (tool_name t = "createShape" →
     ∀ (props : list (string * jsval)) (st : session),
       (createShape (VObj props) st).2 = None
       ↔ ∀ k, k ∈ tool_required t → Number_isFinite (own_property k props) = true).
Proof.
  intros Ht. unfold getWhiteboardTools in Ht.
  apply elem_of_cons in Ht as [-> | Ht];
    [| apply elem_of_cons in Ht as [-> | Ht]; [| by apply elem_of_nil in Ht]].
  - split; [by left |]. split.
    { cbn. intros k Hk. repeat (apply elem_of_cons in Hk as [-> | Hk];
        [repeat constructor |]). by apply elem_of_nil in Hk. }
    intros _ props st. cbn [tool_required]. unfold Backend.createShape.
    cbn [read field_name]. split.
    + intros H k Hk.
      destruct (Number_isFinite (own_property "x" props)) eqn:Hx,
               (Number_isFinite (own_property "y" props)) eqn:Hy,
               (Number_isFinite (own_property "w" props)) eqn:Hw,
               (Number_isFinite (own_property "h" props)) eqn:Hh;
        cbn in H; try done.
      repeat (apply elem_of_cons in Hk as [-> | Hk]; [done |]).
      by apply elem_of_nil in Hk.
    + intros H.
      rewrite (H "x"), (H "y"), (H "w"), (H "h") by repeat constructor. done.
  - split; [by right |]. split; [| done].
    cbn. intros k Hk. apply elem_of_cons in Hk as [-> | Hk]; [repeat constructor |].
    by apply elem_of_nil in Hk.
Qed.

End Properties.

(** * The backend on concrete inputs *)

(** [createShape] with an [x] that overflowed to [Infinity], on a collection
    of one shape. *)
Lemma failed_dispatch_leaves_store_witness :
  Sample.JSON_parse (function_arguments Sample.overflow_call) = inr Sample.overflow
  ∧ ((function_name Sample.overflow_call = "createShape"
      ∧ Number_isFinite (read Sample.overflow Fx)
        && Number_isFinite (read Sample.overflow Fy)
        && Number_isFinite (read Sample.overflow Fw)
        && Number_isFinite (read Sample.overflow Fh) = false)
     ∨ (function_name Sample.overflow_call = "editExistingShape"
        ∧ no_shape_has (read Sample.overflow Fid) [Sample.shape42]))
  ∧ ∃ err : exn,
      (err = Error "required params were not given"
       ∨ err = Error "could not find shape"
       ∨ err = TypeError (Sample.TypeError_message (ReadOfNullish Sample.overflow Fid)))
      ∧ Sample.dispatch "a" Sample.overflow_call (Sample.idle [Sample.shape42])
        = (Sample.idle [Sample.shape42], [restarting "a"],
           inr (error_output Sample.overflow_call err)).
Proof.
  split; [reflexivity |]. split; [left; split; reflexivity |].
  apply (failed_dispatch_leaves_store Sample.JSON_parse Sample.JSON_stringify
           Sample.Math_random Sample.TypeError_message "a" Sample.overflow_call
           Sample.overflow (Sample.idle [Sample.shape42]));
    [reflexivity | left; split; reflexivity].
Defined.

(** [createShape] with the red square, on a collection of one shape. *)
Lemma createShape_appends_witness :
  Number_isFinite (read Sample.red_square Fx) = true
  ∧ Number_isFinite (read Sample.red_square Fy) = true
  ∧ Number_isFinite (read Sample.red_square Fw) = true
  ∧ Number_isFinite (read Sample.red_square Fh) = true
  ∧ from_unit_interval (Sample.Math_random 0) = true
  ∧ ∃ (generatedShape : Shape) (n : Z),
      Sample.createShape Sample.red_square (Sample.idle [Sample.shape42])
      = (mkSession ([Sample.shape42] ++ [generatedShape]) None 1, None)
      ∧ length ([Sample.shape42] ++ [generatedShape]) = 2
      ∧ (∀ f, f ∈ [Fx; Fy; Fw; Fh] →
           get f generatedShape = read Sample.red_square f)
      ∧ shape_color generatedShape
        = (if nullish (read Sample.red_square Fcolor) then VStr "hsl(0, 0%, 0%)"
           else read Sample.red_square Fcolor)
      ∧ shape_id generatedShape = VNum (Finite (inject_Z n))
      ∧ (0 ≤ n < 100000)%Z.
Proof.
  repeat (split; [reflexivity |]).
  exact (createShape_appends Sample.Math_random Sample.red_square
           (Sample.idle [Sample.shape42]) eq_refl eq_refl eq_refl eq_refl eq_refl).
Defined.

(** [editExistingShape({id:42, x:-10})] on two shapes, the second with the
    id 42. *)
Lemma editExistingShape_frame_witness :
  nullish Sample.move_left = false
  ∧ first_with_id (read Sample.move_left Fid) [Sample.shape7; Sample.shape42]
      1 Sample.shape42
  ∧ ∃ (st' : session) (shape' : Shape),
      Sample.editExistingShape Sample.move_left
        (Sample.idle [Sample.shape7; Sample.shape42]) = (st', None)
      ∧ length (shapes st') = 2
      ∧ shapes st' !! 1 = Some shape'
      ∧ (∀ j, j ≠ 1 → shapes st' !! j = [Sample.shape7; Sample.shape42] !! j)
      ∧ (∀ f, f ≠ Fid →
           get f shape'
           = if nullish (read Sample.move_left f) then get f Sample.shape42
             else read Sample.move_left f)
      ∧ (∀ f, read Sample.move_left f = VUndefined →
           get f shape' = get f Sample.shape42)
      ∧ shape_id shape' = shape_id Sample.shape42
      ∧ activeRun st' = None
      ∧ random_calls st' = 0.
Proof.
  split; [reflexivity |]. split; [reflexivity |].
  exact (editExistingShape_frame Sample.TypeError_message Sample.move_left
           (Sample.idle [Sample.shape7; Sample.shape42]) 1 Sample.shape42
           eq_refl eq_refl).
Defined.

(** The scenario of the specification: [createShape] with a red square at
    the origin adds exactly that shape, with an id below 100000. *)
Example red_square_at_the_origin :
  Sample.createShape Sample.red_square (Sample.idle [])
  = (mkSession
       [ mkShape (Sample.int 0) (Sample.int 0) (Sample.int 50) (Sample.int 50)
                 (VStr "hsl(0,100%,50%)") (Sample.int 50000) ]
       None 1,
     None).
Proof. reflexivity. Qed.

(** The product is rounded before it is floored.  For the draw
    [0.9999899999999999], which is [9007109182748444 * 2^-53], the exact
    product is just below 99999 and the rounded product is 99999. *)
Example id_of_a_rounded_product :
  from_unit_interval (S754_finite false 9007109182748444 (-53)) = true
  ∧ (9007109182748444 * 100000 / 2 ^ 53 = 99998)%Z
  ∧ Backend.createShape (λ _, S754_finite false 9007109182748444 (-53))
      Sample.red_square (Sample.idle [])
    = (mkSession
         [ mkShape (Sample.int 0) (Sample.int 0) (Sample.int 50) (Sample.int 50)
                   (VStr "hsl(0,100%,50%)") (Sample.int 99999) ]
         None 1,
       None).
Proof. repeat split; vm_compute; reflexivity. Qed.

(** The scenario of the specification: [editExistingShape({id:42, x:-10})]
    on [{id:42, x:0, y:0, w:10, h:10}] moves the shape and nothing else. *)
Example move_shape_42_left :
  Sample.editExistingShape Sample.move_left (Sample.idle [Sample.shape7; Sample.shape42])
  = (Sample.idle
       [ Sample.shape7;
         mkShape (Sample.int (-10)) (Sample.int 0) (Sample.int 10) (Sample.int 10)
                 VUndefined (Sample.int 42) ],
     None).
Proof. reflexivity. Qed.

(** ['update-shape'] with an id that no shape has, and with the id 42 and an
    [x] only. *)
Lemma update_shape_overwrites_witness :
  (no_shape_has (read (VObj [("id", Sample.int 9)]) Fid) [Sample.shape42]
   ∧ on_update_shape "a" [("id", Sample.int 9)]
       (mkConfig (Sample.idle [Sample.shape42]) [] [])
     = mkConfig (Sample.idle [Sample.shape42]) [] [])
  ∧ (first_with_id (read (VObj [("id", Sample.int 42); ("x", Sample.int 3)]) Fid)
       [Sample.shape42] 0 Sample.shape42
     ∧ on_update_shape "a" [("id", Sample.int 42); ("x", Sample.int 3)]
         (mkConfig (Sample.idle [Sample.shape42]) [] [])
       = mkConfig
           (Sample.idle
              [mkShape (Sample.int 3) VUndefined VUndefined VUndefined VUndefined
                       (Sample.int 42)])
           []
           [BroadcastEmit "a" "update-shape"
              (PShape (mkShape (Sample.int 3) VUndefined VUndefined VUndefined
                               VUndefined (Sample.int 42)))]).
Proof.
  assert (no_shape_has (read (VObj [("id", Sample.int 9)]) Fid) [Sample.shape42])
    as Hnone by (repeat constructor).
  split.
  - split; [exact Hnone |].
    exact (proj1 (update_shape_overwrites "a" [("id", Sample.int 9)]
                    (mkConfig (Sample.idle [Sample.shape42]) [] [])) Hnone).
  - split; reflexivity.
Defined.

(** The run is found completed at the first status fetch. *)
Lemma resolved_run_ends_with_snapshot_witness :
  tasks (Sample.run initial Sample.started) !! 0
  = Some (mkTask "a" (Suspend AwaitFirstRetrieve))
  ∧ tasks (Sample.on_completion 0 (Returned (Sample.run_in "completed"))
             (Sample.run initial Sample.started)) !! 0
    = Some (mkTask "a" (Done Resolved))
  ∧ log (Sample.on_completion 0 (Returned (Sample.run_in "completed"))
           (Sample.run initial Sample.started))
    = log (Sample.run initial Sample.started)
      ++ [ SocketEmit "a" "updates" (PText EmptyString);
           SocketEmit "a" "snapshot"
             (PShapes
                (shapes
                   (store
                      (Sample.on_completion 0 (Returned (Sample.run_in "completed"))
                         (Sample.run initial Sample.started))))) ]
  ∧ activeRun
      (store (Sample.on_completion 0 (Returned (Sample.run_in "completed"))
                (Sample.run initial Sample.started))) = None
  ∧ shapes
      (store (Sample.on_completion 0 (Returned (Sample.run_in "completed"))
                (Sample.run initial Sample.started)))
    = shapes (store (Sample.run initial Sample.started)).
Proof.
  split; [reflexivity |]. split; [reflexivity |].
  exact (resolved_run_ends_with_snapshot Sample.JSON_parse Sample.JSON_stringify
           Sample.Math_random Sample.TypeError_message
           (Sample.run initial Sample.started) 0 "a" AwaitFirstRetrieve
           (Returned (Sample.run_in "completed")) eq_refl eq_refl).
Defined.

(** C2. A run that is queued at the first fetch and failed at the second.
    The second fetch ends the loop, and what follows is the ending of a
    successful run: the caller gets the empty notification and the snapshot,
    no notification names the failing status, and the promise resolves.  The
    handle is cleared. *)
Theorem late_failure_is_reported_as_success :
  Sample.run initial Sample.fails_later
  = mkConfig
      (mkSession [] None 0)
      [ mkTask "a" (Done Resolved) ]
      [ Call (MessagesCreate (Sample.addMessageContext "draw" []));
        Call RunsCreate;
        Call (RunsRetrieve "run_1");
        SocketEmit "a" "updates" (PText "Processing your request...");
        Call (Sleep 1000);
        Call (RunsRetrieve "run_1");
        SocketEmit "a" "updates" (PText EmptyString);
        SocketEmit "a" "snapshot" (PShapes []) ].
Proof. vm_compute. reflexivity. Qed.

(** The same status at the first fetch is reported and rejects the promise. *)
Example failure_at_the_first_fetch :
  Sample.run initial Sample.fails_at_once
  = mkConfig
      (mkSession [] None 0)
      [ mkTask "a"
          (Done (Rejected (Some (Error "run result failed with status: failed")))) ]
      [ Call (MessagesCreate (Sample.addMessageContext "draw" []));
        Call RunsCreate;
        Call (RunsRetrieve "run_1");
        SocketEmit "a" "updates" (PText "Process failed with status: failed");
        SocketEmit "a" "updates" (PText EmptyString) ].
Proof. vm_compute. reflexivity. Qed.

(** C3. The first status fetch is rejected by the service.  The error is
    caught, logged and the promise rejected, but the run handle still holds
    the run: an instruction that arrives afterwards finds the gate closed and
    is only answered with the snapshot. *)
Theorem service_error_leaves_the_handle_set :
  Sample.run initial Sample.fetch_throws
  = mkConfig
      (mkSession [] (Some (Sample.run_in "queued")) 0)
      [ mkTask "a" (Done (Rejected None)) ]
      [ Call (MessagesCreate (Sample.addMessageContext "draw" []));
        Call RunsCreate;
        Call (RunsRetrieve "run_1");
        ConsoleError "Error retrieving the run:" (Some (Error "Connection error.")) ]
  ∧ Sample.run initial (Sample.fetch_throws ++ [HandleUserPrompt "b" "again"])
    = mkConfig
        (mkSession [] (Some (Sample.run_in "queued")) 0)
        [ mkTask "a" (Done (Rejected None)) ]
        [ Call (MessagesCreate (Sample.addMessageContext "draw" []));
          Call RunsCreate;
          Call (RunsRetrieve "run_1");
          ConsoleError "Error retrieving the run:" (Some (Error "Connection error."));
          SocketEmit "b" "snapshot" (PShapes []) ].
Proof. split; vm_compute; reflexivity. Qed.

(** C4. A tool call that names [toString], which is no tool: [functions]
    inherits a member of that name, so the call is not answered with
    [error: couldnt find function] but as a success. *)
Theorem inherited_name_is_answered_as_success :
  functions "toString" = Some (Inherited OP_toString)
  ∧ Sample.dispatch "a" Sample.toString_call (Sample.idle [])
    = (Sample.idle [], [],
       inr (mkToolOutput "call_1" "Success. New shapes array: []")).
Proof. split; reflexivity. Qed.

(** A name that is neither a tool nor inherited is answered as unknown. *)
Example unknown_name_is_reported :
  Sample.dispatch "a" (mkToolCall (Some "call_1") "deleteShape" "{}")
    (Sample.idle [Sample.shape42])
  = (Sample.idle [Sample.shape42],
     [ restarting "a";
       ConsoleError "function name did not match accepted function arguments" None ],
     inr (mkToolOutput "call_1" "error: couldnt find function")).
Proof. reflexivity. Qed.

(** C8. A run that requires one tool call whose argument text is not JSON.
    [JSON.parse] throws outside the [try] that guards the handler: the batch
    is not answered, nothing is submitted, the promise is rejected and the
    handle stays set. *)
Theorem unparsed_arguments_leave_the_batch_unanswered :
  Sample.run initial Sample.truncated_arguments
  = mkConfig
      (mkSession [] (Some (Sample.run_in "queued")) 0)
      [ mkTask "a" (Done (Rejected None)) ]
      [ Call (MessagesCreate (Sample.addMessageContext "draw" []));
        Call RunsCreate;
        Call (RunsRetrieve "run_1");
        ConsoleError "Error retrieving the run:"
          (Some (SyntaxError "Unexpected end of JSON input")) ]
  ∧ submissions (log (Sample.run initial Sample.truncated_arguments)) = 0.
Proof. split; vm_compute; reflexivity. Qed.

(** Two batches whose argument texts parse: two submissions, each with one
    output per call of its batch, in the order of the calls; the call to the
    unknown function and the edit of a shape that does not exist are answered
    too. *)
Example two_batches_two_submissions :
  submitted (log (Sample.run initial Sample.two_batches))
  = [ ["call_1"]; ["call_2"; "call_3"] ]
  ∧ tasks (Sample.run initial Sample.two_batches) = [mkTask "a" (Done Resolved)].
Proof. split; vm_compute; reflexivity. Qed.

(** The snapshot after an instruction.  When the run fails at the first
    fetch, the log ends with the two notifications and no client is sent a
    snapshot, the caller included.  When the run completes, the caller is
    sent the snapshot and another client is sent none. *)
Lemma snapshot_neither_broadcast_nor_sent_on_failure :
  snapshots_for "a" (log (Sample.run initial Sample.fails_at_once)) = []
  ∧ snapshots_for "a" (log (Sample.run initial Sample.completes))
    = [SocketEmit "a" "snapshot" (PShapes [])]
  ∧ snapshots_for "b" (log (Sample.run initial Sample.completes)) = [].
Proof. repeat split; vm_compute; reflexivity. Qed.

(** C1. Two instructions that both arrive before the first run is created.
    The handle is null at both arrivals, so both pass the gate; it is set
    only when [runs.create] has resolved, two awaits later.  The first
    handler gets its run, [run_1], and the handle holds it.  Then
    [messages.create] of the second handler resolves and the handler asks
    for a second run, with nothing looking at the handle.  When that run,
    [run_2], is created it replaces [run_1] in the handle, and the two
    handlers go on, each fetching the status of its own run: two runs are
    active at once. *)
Theorem second_run_is_created_while_one_is_active :
  Sample.run initial (take 4 Sample.second_before_first_run)
  = mkConfig
      (mkSession [] (Some (mkRun "run_1" "queued" None)) 0)
      [ mkTask "a" (Suspend AwaitFirstRetrieve);
        mkTask "b" (Suspend AwaitMessagesCreate) ]
      [ Call (MessagesCreate (Sample.addMessageContext "one" []));
        Call (MessagesCreate (Sample.addMessageContext "two" []));
        Call RunsCreate;
        Call (RunsRetrieve "run_1") ]
  ∧ Sample.run initial (take 5 Sample.second_before_first_run)
    = mkConfig
        (mkSession [] (Some (mkRun "run_1" "queued" None)) 0)
        [ mkTask "a" (Suspend AwaitFirstRetrieve);
          mkTask "b" (Suspend AwaitRunsCreate) ]
        [ Call (MessagesCreate (Sample.addMessageContext "one" []));
          Call (MessagesCreate (Sample.addMessageContext "two" []));
          Call RunsCreate;
          Call (RunsRetrieve "run_1");
          Call RunsCreate ]
  ∧ Sample.run initial Sample.second_before_first_run
    = mkConfig
        (mkSession [] (Some (mkRun "run_2" "queued" None)) 0)
        [ mkTask "a" (Suspend AwaitFirstRetrieve);
          mkTask "b" (Suspend AwaitFirstRetrieve) ]
        [ Call (MessagesCreate (Sample.addMessageContext "one" []));
          Call (MessagesCreate (Sample.addMessageContext "two" []));
          Call RunsCreate;
          Call (RunsRetrieve "run_1");
          Call RunsCreate;
          Call (RunsRetrieve "run_2") ]
  ∧ runs_created (log (Sample.run initial Sample.second_before_first_run)) = 2.
Proof. repeat split; vm_compute; reflexivity. Qed.

(** The same, when both handlers ask for their run before either run is
    created. *)
Remark two_instructions_before_the_handle_is_set :
  runs_created (log (Sample.run initial Sample.two_at_once)) = 2
  ∧ activeRun (store (Sample.run initial Sample.two_at_once))
    = Some (mkRun "run_2" "queued" None).
Proof. split; vm_compute; reflexivity. Qed.

(** * More concrete inputs *)

(** [editExistingShape] called with [null] on a collection of one shape: the
    TypeError is answered as text. *)
Lemma parsed_call_is_answered_witness :
  parses Sample.JSON_parse (mkToolCall None "editExistingShape" "null")
  ∧ ∃ (st' : session) (effs : list effect) (out : ToolOutput),
      Sample.dispatch "a" (mkToolCall None "editExistingShape" "null")
        (Sample.idle [Sample.shape42])
      = (st', effs, inr out)
      ∧ tool_call_id out = default EmptyString None
      ∧ (output out = "error: couldnt find function"
         ∨ output out
           = "Success. New shapes array: " +:+ Sample.JSON_stringify (shapes st')
         ∨ ∃ err, instanceof_Error err = true
                  ∧ output out = Error_toString err
                  ∧ st' = Sample.idle [Sample.shape42]).
Proof.
  assert (parses Sample.JSON_parse (mkToolCall None "editExistingShape" "null"))
    as Hp by (by exists VNull).
  split; [exact Hp |].
  exact (parsed_call_is_answered Sample.JSON_parse Sample.JSON_stringify
           Sample.Math_random Sample.TypeError_message "a"
           (mkToolCall None "editExistingShape" "null")
           (Sample.idle [Sample.shape42]) Hp).
Defined.

(** A run of two batches after the run was created: two submissions. *)
Lemma every_batch_is_submitted_once_witness :
  existsb spinning (tasks (Sample.run initial Sample.started)) = false
  ∧ holds_handle 0 (Sample.run initial Sample.started)
  ∧ Forall (well_formed Sample.JSON_parse) Sample.two_batch_answers
  ∧ submissions
      (log (Sample.run (Sample.run initial Sample.started)
              (Completion 0 <$> Sample.two_batch_answers)))
    = submissions (log (Sample.run initial Sample.started))
      + batches_handed Sample.JSON_parse Sample.JSON_stringify
          Sample.JSON_stringify Sample.Math_random Sample.TypeError_message
          0 (Sample.run initial Sample.started) Sample.two_batch_answers.
Proof.
  assert (holds_handle 0 (Sample.run initial Sample.started)) as Hh.
  { intros socket p _ _ Habs. vm_compute in Habs. discriminate. }
  assert (Forall (well_formed Sample.JSON_parse) Sample.two_batch_answers) as Hw.
  { repeat (constructor; cbn); by eexists. }
  split; [reflexivity |]. split; [exact Hh |]. split; [exact Hw |].
  exact (every_batch_is_submitted_once Sample.JSON_parse Sample.JSON_stringify
           Sample.JSON_stringify Sample.Math_random Sample.TypeError_message
           0 Sample.two_batch_answers (Sample.run initial Sample.started)
           eq_refl Hh Hw).
Defined.

(** Two more rounds of polling, one in progress and one queued. *)
Lemma polling_goes_on_witness :
  tasks (Sample.run initial Sample.polled_once) !! 0
  = Some (mkTask "a" (Suspend AwaitRetrieve))
  ∧ activeRun (store (Sample.run initial Sample.polled_once))
    = Some (Sample.run_in "queued")
  ∧ existsb spinning (tasks (Sample.run initial Sample.polled_once)) = false
  ∧ Forall (λ r, still_running r = true)
           [Sample.run_in "in_progress"; Sample.run_in "queued"]
  ∧ Sample.run (Sample.run initial Sample.polled_once)
      (polling 0 [Sample.run_in "in_progress"; Sample.run_in "queued"])
    = mkConfig (store (Sample.run initial Sample.polled_once))
               (tasks (Sample.run initial Sample.polled_once))
               (log (Sample.run initial Sample.polled_once)
                ++ polling_effects "a" (Sample.run_in "queued")
                     [Sample.run_in "in_progress"; Sample.run_in "queued"]).
Proof.
  assert (Forall (λ r, still_running r = true)
                 [Sample.run_in "in_progress"; Sample.run_in "queued"]) as Hr
    by (repeat constructor).
  split; [reflexivity |]. split; [reflexivity |]. split; [reflexivity |].
  split; [exact Hr |].
  exact (polling_goes_on Sample.JSON_parse Sample.JSON_stringify
           Sample.JSON_stringify Sample.Math_random Sample.TypeError_message
           0 "a" (Sample.run_in "queued")
           [Sample.run_in "in_progress"; Sample.run_in "queued"]
           (Sample.run initial Sample.polled_once) eq_refl eq_refl eq_refl Hr).
Defined.

(** A submission that returns the run expired. *)
Lemma failure_status_ends_the_handler_witness :
  fetches AwaitSubmit = true
  ∧ includes failedStatus (status (Sample.run_in "expired")) = true
  ∧ Backend.resume Sample.JSON_parse Sample.JSON_stringify Sample.Math_random
      Sample.TypeError_message "a" AwaitSubmit
      (Returned (Sample.run_in "expired"))
      (mkSession [Sample.shape42] (Some (Sample.run_in "queued")) 0)
    = (set_activeRun None
         (mkSession [Sample.shape42] (Some (Sample.run_in "queued")) 0),
       [] ++ [SocketEmit "a" "updates" (PText EmptyString)],
       Done Resolved).
Proof.
  split; [reflexivity |]. split; [reflexivity |].
  exact (failure_status_ends_the_handler Sample.JSON_parse Sample.JSON_stringify
           Sample.Math_random Sample.TypeError_message "a" AwaitSubmit
           (Sample.run_in "expired")
           (mkSession [Sample.shape42] (Some (Sample.run_in "queued")) 0)
           eq_refl eq_refl).
Defined.

(** Client [b] connects while [a] is connected, and disconnects. *)
Lemma disconnect_undoes_connection_witness :
  distinct_refs (mkServer initial [mkUser 0 "a"] 1)
  ∧ distinct_refs (on_connection "b" (mkServer initial [mkUser 0 "a"] 1)).1
  ∧ (∀ u, distinct_refs
            (on_disconnect u
               (on_connection "b" (mkServer initial [mkUser 0 "a"] 1)).1).1)
  ∧ users (on_disconnect (mkUser 1 "b")
             (on_connection "b" (mkServer initial [mkUser 0 "a"] 1)).1).1
    = [mkUser 0 "a"].
Proof.
  assert (distinct_refs (mkServer initial [mkUser 0 "a"] 1)) as Hd.
  { split; [apply NoDup_singleton | repeat constructor]. }
  split; [exact Hd |].
  exact (disconnect_undoes_connection "b" (mkServer initial [mkUser 0 "a"] 1) Hd).
Defined.

(** A shape with the id 7 is created and then moved. *)
Lemma created_shape_can_be_updated_witness :
  strict_eq (shape_id Sample.shape7) (shape_id Sample.shape7) = true
  ∧ no_shape_has (shape_id Sample.shape7) [Sample.shape42]
  ∧ read (VObj [("id", Sample.int 7); ("x", Sample.int 1)]) Fid
    = shape_id Sample.shape7
  ∧ shapes
      (store (on_update_shape "b" [("id", Sample.int 7); ("x", Sample.int 1)]
                (on_create_shape "a" Sample.shape7
                   (mkConfig (Sample.idle [Sample.shape42]) [] []))))
    = [Sample.shape42]
      ++ [ mkShape (read (VObj [("id", Sample.int 7); ("x", Sample.int 1)]) Fx)
                   (read (VObj [("id", Sample.int 7); ("x", Sample.int 1)]) Fy)
                   (read (VObj [("id", Sample.int 7); ("x", Sample.int 1)]) Fw)
                   (read (VObj [("id", Sample.int 7); ("x", Sample.int 1)]) Fh)
                   (shape_color Sample.shape7) (shape_id Sample.shape7) ].
Proof.
  assert (no_shape_has (shape_id Sample.shape7) [Sample.shape42]) as Hn
    by (repeat constructor).
  split; [reflexivity |]. split; [exact Hn |]. split; [reflexivity |].
  exact (proj1 (created_shape_can_be_updated "a" "b" Sample.shape7
                  [("id", Sample.int 7); ("x", Sample.int 1)]
                  (mkConfig (Sample.idle [Sample.shape42]) [] []))
               eq_refl Hn eq_refl).
Defined.

(** A red square is created, then the shape 42 is moved. *)
Lemma older_shape_shadows_the_new_one_witness :
  (Sample.createShape Sample.red_square
     (Sample.idle [Sample.shape7; Sample.shape42])).2 = None
  ∧ nullish Sample.move_left = false
  ∧ first_with_id (read Sample.move_left Fid) [Sample.shape7; Sample.shape42]
      1 Sample.shape42
  ∧ ∃ generatedShape : Shape,
      shapes (Sample.createShape Sample.red_square
                (Sample.idle [Sample.shape7; Sample.shape42])).1
      = [Sample.shape7; Sample.shape42] ++ [generatedShape]
      ∧ (Sample.editExistingShape Sample.move_left
           (Sample.createShape Sample.red_square
              (Sample.idle [Sample.shape7; Sample.shape42])).1).2 = None
      ∧ shapes (Sample.editExistingShape Sample.move_left
                  (Sample.createShape Sample.red_square
                     (Sample.idle [Sample.shape7; Sample.shape42])).1).1
        = <[1 := edited Sample.move_left Sample.shape42]>
            [Sample.shape7; Sample.shape42]
          ++ [generatedShape].
Proof.
  split; [reflexivity |]. split; [reflexivity |]. split; [reflexivity |].
  exact (older_shape_shadows_the_new_one Sample.Math_random
           Sample.TypeError_message Sample.red_square Sample.move_left
           (Sample.idle [Sample.shape7; Sample.shape42]) 1 Sample.shape42
           eq_refl eq_refl eq_refl).
Defined.

(** The description of [createShape]. *)
Lemma described_tools_are_handled_witness :
  createShape_schema ∈ getWhiteboardTools
  ∧ (functions (tool_name createShape_schema) = Some Own_createShape
     ∨ functions (tool_name createShape_schema) = Some Own_editExistingShape)
  ∧ tool_required createShape_schema
    ⊆ property_name <$> tool_properties createShape_schema
  ∧ (tool_name createShape_schema = "createShape" →
     ∀ (props : list (string * jsval)) (st : session),
       (Sample.createShape (VObj props) st).2 = None
       ↔ ∀ k, k ∈ tool_required createShape_schema →
              Number_isFinite (own_property k props) = true).
Proof.
  assert (createShape_schema ∈ getWhiteboardTools) as Hin by (by left).
  split; [exact Hin |].
  exact (described_tools_are_handled Sample.Math_random createShape_schema Hin).
Defined.
